(** * n8n-nodes-linkedin: session establishment and resilient action layer

    A shallow embedding of the TypeScript sources

      - [utils/validation.ts]   (URL predicates),
      - [utils/browser.ts]      (navigateWithRetry, waitForSelectorWithFallback,
                                 takeScreenshot),
      - [utils/logger.ts]       (the levelled console logger),
      - [services/postService.ts] (likePost, commentOnPost, sharePost,
                                 getPostInfo),
      - [services/profileService.ts] (visitProfile, sendConnectionRequest,
                                 sendMessage),
      - [services/authenticationService.ts] (verifyLoggedIn, isLoggedIn,
                                 logout),
      - the node file           (execute, loginToLinkedIn, handle2FA,
                                 handleSecurityChallenge, handleCheckpoint,
                                 handlePostOperations, scrollToLoadPosts),

    over an explicit model of the Puppeteer driver.  Asynchronous code is
    sequential here: every [await] is a step of a state-and-exception monad
    whose state is the driver's state together with the log of the commands
    sent to it.  Console logging is left out; it never influences control. *)

From Stdlib Require Import String Ascii List Bool Arith ZArith Lia.
From Stdlib Require DecimalString.
Import ListNotations.
Open Scope string_scope.

(* ------------------------------------------------------------------ *)
(** ** JavaScript strings *)

(** A string is held as the bytes of its UTF-8 encoding. *)

(** [s.includes(sub)] *)
Fixpoint includes (s sub : string) : bool :=
  if String.prefix sub s then true
  else match s with
       | EmptyString => false
       | String _ t => includes t sub
       end.

Definition lower_ascii (c : ascii) : ascii :=
  let n := nat_of_ascii c in
  if ((65 <=? n) && (n <=? 90))%nat then ascii_of_nat (n + 32) else c.

(** [s.toLowerCase()], on the ASCII range. *)
Fixpoint toLowerCase (s : string) : string :=
  match s with
  | EmptyString => EmptyString
  | String c t => String (lower_ascii c) (toLowerCase t)
  end.

Fixpoint split_go (sep : string) (skip : nat) (cur s : string) : list string :=
  match s with
  | EmptyString => [cur]
  | String c t =>
      match skip with
      | S k => split_go sep k cur t
      | O =>
          if String.prefix sep s
          then cur :: split_go sep (String.length sep - 1) EmptyString t
          else split_go sep 0 (cur ++ String c EmptyString) t
      end
  end.

(** [s.split(sep)] for a non-empty separator. *)
Definition split (s sep : string) : list string := split_go sep 0 EmptyString s.

(** What [trim] strips, in one byte: space, tab, line feed, vertical tab,
    form feed, carriage return. *)
Definition is_space (c : ascii) : bool :=
  let n := nat_of_ascii c in
  ((n =? 32) || ((9 <=? n) && (n <=? 13)))%nat.

(** In two bytes: U+00A0, the no-break space. *)
Definition is_space2 (a b : ascii) : bool :=
  ((nat_of_ascii a =? 194) && (nat_of_ascii b =? 160))%nat.

(** In three bytes: U+1680; U+2000 to U+200A; the line and paragraph
    separators U+2028 and U+2029; U+202F; U+205F; U+3000; and U+FEFF, the
    byte order mark. *)
Definition is_space3 (a b c : ascii) : bool :=
  let x := nat_of_ascii a in
  let y := nat_of_ascii b in
  let z := nat_of_ascii c in
  (((x =? 225) && (y =? 154) && (z =? 128))
   || ((x =? 226) && (y =? 128)
       && (((128 <=? z) && (z <=? 138)) || (z =? 168) || (z =? 169) || (z =? 175)))
   || ((x =? 226) && (y =? 129) && (z =? 159))
   || ((x =? 227) && (y =? 128) && (z =? 128))
   || ((x =? 239) && (y =? 187) && (z =? 191)))%nat.

(** [s.trim() !== ''] : some character of [s] is not white space.  The
    characters are read off from the left, one white space at a time. *)
Fixpoint has_non_space (s : string) : bool :=
  match s with
  | EmptyString => false
  | String a t =>
      if is_space a then has_non_space t
      else
        match t with
        | EmptyString => true
        | String b t2 =>
            if is_space2 a b then has_non_space t2
            else
              match t2 with
              | EmptyString => true
              | String c t3 => if is_space3 a b c then has_non_space t3 else true
              end
        end
  end.

(** [`${n}`] for a non-negative integer: its decimal digits. *)
Definition decimal (n : N) : string :=
  DecimalString.NilEmpty.string_of_uint (N.to_uint n).

(* ------------------------------------------------------------------ *)
(** ** JavaScript values crossing the driver and credential boundaries *)

Definition Handle := nat.

Inductive Val : Type :=
| VUndefined
| VNull
| VBool (b : bool)
| VStr (s : string)
| VElem (h : Handle)
| VArr (hs : list Handle).

(** ToBoolean *)
Definition truthy (v : Val) : bool :=
  match v with
  | VUndefined | VNull => false
  | VBool b => b
  | VStr s => negb (s =? EmptyString)
  | VElem _ | VArr _ => true
  end.

(** [a || b] *)
Definition js_or (a b : Val) : Val := if truthy a then a else b.

Definition as_string (v : Val) : string :=
  match v with VStr s => s | _ => EmptyString end.

Definition as_array (v : Val) : list Handle :=
  match v with VArr hs => hs | _ => [] end.

(** The double-quote character, for selector and message literals. *)
Definition dq : string := String (ascii_of_nat 34) EmptyString.

Definition q (s : string) : string := dq ++ s ++ dq.

(* ------------------------------------------------------------------ *)
(** ** utils/validation.ts *)

Definition isValidLinkedInPostUrl (url : string) : bool :=
  if url =? EmptyString then false
  else includes url "linkedin.com/feed/update/" || includes url "linkedin.com/posts/".

Definition isValidLinkedInProfileUrl (url : string) : bool :=
  if url =? EmptyString then false else includes url "linkedin.com/in/".

(* ------------------------------------------------------------------ *)
(** ** The Puppeteer driver *)

Inductive WaitUntil := networkidle2 | domcontentloaded | load_default.

(** What the [page.evaluate] callbacks of the sources compute. *)
Inductive Probe :=
| TextContent          (* el => el.textContent *)
| TextContentTrim      (* el => el.textContent?.trim() *)
| Disabled             (* el => el.disabled || false *)
| Pressed              (* aria-pressed === 'true' || an active class is set *)
| ExtractPost.         (* the extraction callback of getPostInfo *)

(** Commands sent to a page or to one of its element handles.  Times are in
    milliseconds. *)
Inductive PageCmd :=
| Goto (url : string) (wait : WaitUntil) (timeout : option N)
| WaitForSelector (sel : string) (visible : bool) (timeout : option N)
| Query (sel : string)                       (* page.$ *)
| QueryAll (sel : string)                    (* page.$$ *)
| ClickSel (sel : string)                    (* page.click *)
| Click (el : Val) (clickCount : nat)        (* element.click *)
| TypeSel (sel text : string) (delay : N)    (* page.type *)
| TypeEl (el : Val) (text : string) (delay : N)
| WaitForNavigation (wait : WaitUntil) (timeout : N)
| WaitForTimeout (ms : N)
| Screenshot (path : string)
| Content
| Title
| Evaluate (p : Probe) (el : Val)
| SetDefaultTimeout (ms : N)
| SetDefaultNavigationTimeout (ms : N).

(** Commands sent to Puppeteer itself or to the browser. *)
Inductive BrowserCmd :=
| Launch (headless : Val)
| NewPage
| Close.

(** What a promise settles to. *)
Inductive Res (A : Type) : Type :=
| Done (a : A)
| Fail (msg : string).
Arguments Done {A} a.
Arguments Fail {A} msg.

(** The driver and the site behind it, as a transition system on a state [St].
    [page.url()] is a synchronous getter; [page.waitForTimeout] is a timer and
    cannot reject, it only lets the site move on; every other command may
    reject.  The state carries the clock: [drv_now] is what [Date.now()] and
    [new Date().getTime()] read, in milliseconds. *)
Record Driver (St : Type) : Type := {
  drv_url : St -> string;
  drv_now : St -> N;
  drv_tick : N -> St -> St;
  drv_page : PageCmd -> St -> Res Val * St;
  drv_browser : BrowserCmd -> St -> Res Val * St
}.
Arguments drv_url {St} _ _.
Arguments drv_now {St} _ _.
Arguments drv_tick {St} _ _ _.
Arguments drv_page {St} _ _ _.
Arguments drv_browser {St} _ _ _.

(* ------------------------------------------------------------------ *)
(** ** The monad of asynchronous code *)

Inductive Outcome (A : Type) : Type :=
| Ok (a : A)           (* the promise resolved *)
| Throw (msg : string) (* it rejected with [new Error(msg)] *)
| Diverge.             (* the recursion did not finish within the fuel *)
Arguments Ok {A} a.
Arguments Throw {A} msg.
Arguments Diverge {A}.

Definition M (W A : Type) : Type := W -> Outcome A * W.

Definition ret {W A} (a : A) : M W A := fun w => (Ok a, w).

Definition throw {W A} (msg : string) : M W A := fun w => (Throw msg, w).

Definition diverge {W A} : M W A := fun w => (Diverge, w).

Definition bind {W A B} (m : M W A) (k : A -> M W B) : M W B :=
  fun w =>
    match m w with
    | (Ok a, w') => k a w'
    | (Throw e, w') => (Throw e, w')
    | (Diverge, w') => (Diverge, w')
    end.

(** [try { body } catch (error) { handler(error.message) }] *)
Definition try_catch {W A} (body : M W A) (handler : string -> M W A) : M W A :=
  fun w =>
    match body w with
    | (Throw e, w') => handler e w'
    | r => r
    end.

(** A synchronous call of the host that may throw. *)
Definition host {W A} (r : Res A) : M W A :=
  fun w => (match r with Done a => Ok a | Fail m => Throw m end, w).

Definition resolved {A} (r : Res A) : bool :=
  match r with Done _ => true | Fail _ => false end.

Declare Scope js_scope.
Delimit Scope js_scope with js.
Notation "x <- m ;; k" := (bind m (fun x => k))
  (at level 61, m at next level, right associativity) : js_scope.
Notation "m ;; k" := (bind m (fun _ => k))
  (at level 61, right associativity) : js_scope.
Open Scope js_scope.

(** A page together with the commands it has received, newest first, each
    with whether its promise resolved ([true]) or rejected ([false]). *)
Record PWorld (St : Type) : Type := {
  st : St;
  plog : list (PageCmd * bool)
}.
Arguments st {St} _.
Arguments plog {St} _.
Arguments Build_PWorld {St} _ _.

(** The browser process: its page, and the commands sent to Puppeteer and to
    the browser, newest first, with the same flag. *)
Record BWorld (St : Type) : Type := {
  pw : PWorld St;
  blog : list (BrowserCmd * bool)
}.
Arguments pw {St} _.
Arguments blog {St} _.
Arguments Build_BWorld {St} _ _.

(* ------------------------------------------------------------------ *)
(** ** constants/selectors.ts *)

Module Constants.
Definition POST_CONTAINER := ".feed-shared-update-v2, .artdeco-card, article.ember-view".
Definition LIKE_BUTTON :=
  "button.react-button__trigger, button.option-component--like-button, button[aria-label*="
    ++ q "Like" ++ " i], button.artdeco-button[aria-label*=" ++ q "like" ++ " i]".
Definition COMMENT_BUTTON :=
  "button.comment-button, button[aria-label*=" ++ q "Comment"
    ++ " i], button.artdeco-button[aria-label*=" ++ q "comment" ++ " i]".
Definition COMMENT_TEXTBOX :=
  ".comments-comment-box__text-input, div[role=" ++ q "textbox"
    ++ "], div.ql-editor, textarea.comments-comment-box__text-editor".
Definition COMMENT_SUBMIT :=
  "button.comments-comment-box__submit-button, button[type=" ++ q "submit"
    ++ "], button.artdeco-button--primary".
Definition ACTION : N := 2000.
Definition NAVIGATION : N := 10000.
Definition ELEMENT : N := 5000.
Definition TYPING : N := 50.
End Constants.

(* ------------------------------------------------------------------ *)
(** ** The node file: its own selectors and wait times *)

Module Node.
Definition LOGIN_USERNAME := "#username".
Definition LOGIN_PASSWORD := "#password".
Definition LOGIN_SUBMIT := "button[type=" ++ q "submit" ++ "]".
Definition LOGIN_VERIFICATION_CODE := "#input__phone_verification_pin".
Definition LOGIN_VERIFICATION_SUBMIT := "button[type=" ++ q "submit" ++ "]".
Definition SECURITY_CHALLENGE :=
  ".form__input--floating, input[name=" ++ q "email-address" ++ "], input[name="
    ++ q "security-code" ++ "], input[id*=" ++ q "verification" ++ "]".
Definition SECURITY_CHALLENGE_SUBMIT :=
  "button[type=" ++ q "submit" ++ "], button.form__submit, button[data-id="
    ++ q "submit" ++ "], button.signin__button, button.action-submit".
Definition LIKE_BUTTON := ".react-button__trigger".
Definition COMMENT_BUTTON := ".comment-button".
Definition COMMENT_TEXTBOX := ".comments-comment-box__form-container .ql-editor".
Definition COMMENT_SUBMIT := ".comments-comment-box__submit-button".
Definition NAVIGATION : N := 15000.
Definition ELEMENT : N := 10000.
Definition TYPING : N := 100.
Definition ACTION : N := 2000.
End Node.

(* ------------------------------------------------------------------ *)
(** ** The host: credentials and node parameters *)

(** The fields of the [linkedInBrowser] credential the node reads, typed as
    the credential's property list declares them: two strings, two booleans
    and the code, a string shown only when [use2FA] is set.  [None] is a field
    the host left [undefined]. *)
Record Credentials : Type := {
  username : string;
  password : string;
  use2FA : option bool;
  twoFactorCode : option string;
  headless : option bool
}.

Definition flag (o : option bool) : Val :=
  match o with Some b => VBool b | None => VUndefined end.

Definition text (o : option string) : Val :=
  match o with Some s => VStr s | None => VUndefined end.

(** [this] of the node functions ([IExecuteFunctions]). *)
Record Ctx : Type := {
  getCredentials : Res (option Credentials);   (* this.getCredentials('linkedInBrowser') *)
  getInputData : nat;                          (* the number of input items *)
  authentication : string;                     (* getNodeParameter('authentication', 0, 'browser') *)
  getNodeParameter : string -> nat -> Res string;
  continueOnFail : bool
}.

(** What the node answers for one item. *)
Record ActionResult : Type := {
  success : bool;
  action : string;
  url : string;
  comment : option string
}.

Inductive ItemJson : Type :=
| JResult (r : ActionResult)   (* a post operation's result *)
| JValue (v : Val)             (* a profile or feed operation's result *)
| JError (msg : string).       (* { error: error.message } *)

Record Item : Type := {
  json : ItemJson;
  pairedItem : nat
}.

(* ------------------------------------------------------------------ *)
(** ** Page code *)

Section Page.

Context {St : Type} (drv : Driver St).

Abbreviation PM := (M (PWorld St)).

(** [await page.<command>] *)
Definition call (c : PageCmd) : PM Val :=
  fun w =>
    let (r, s') := drv_page drv c (st w) in
    (match r with Done v => Ok v | Fail m => Throw m end,
     {| st := s'; plog := (c, resolved r) :: plog w |}).

(** [page.url()] *)
Definition page_url : PM string := fun w => (Ok (drv_url drv (st w)), w).

(** [Date.now()], [new Date().getTime()] *)
Definition date_now : PM N := fun w => (Ok (drv_now drv (st w)), w).

(** [await page.waitForTimeout(ms)] *)
Definition waitForTimeout (ms : N) : PM unit :=
  fun w => (Ok tt, {| st := drv_tick drv ms (st w); plog := (WaitForTimeout ms, true) :: plog w |}).

(** [await Promise.all([a, b])]: both promises are created before either is
    awaited, so [b] is started even when [a] rejects; the combined promise
    rejects with the error of the one that rejected. *)
Definition promise_all2 (a b : PM Val) : PM unit :=
  fun w =>
    match a w with
    | (Ok _, w1) =>
        match b w1 with
        | (Ok _, w2) => (Ok tt, w2)
        | (Throw e, w2) => (Throw e, w2)
        | (Diverge, w2) => (Diverge, w2)
        end
    | (Throw e, w1) => (Throw e, snd (b w1))
    | (Diverge, w1) => (Diverge, w1)
    end.

(* ---------------------------------------------------------------- *)
(** *** utils/browser.ts *)

(** The [while (attempts < maxRetries)] loop of [navigateWithRetry]; [fuel]
    bounds the number of iterations. *)
Fixpoint navigate_loop (fuel : nat) (url : string) (maxRetries attempts : Z)
  : PM bool :=
  match fuel with
  | O => diverge
  | S fuel' =>
      if (attempts <? maxRetries)%Z then
        try_catch
          (call (Goto url networkidle2 (Some Constants.NAVIGATION)) ;;
           ret true)
          (fun error =>
             let attempts := (attempts + 1)%Z in
             if (attempts >=? maxRetries)%Z then ret false
             else
               waitForTimeout 1000 ;;
               navigate_loop fuel' url maxRetries attempts)
      else ret false
  end.

Definition navigateWithRetry (url : string) (maxRetries : Z) : PM bool :=
  navigate_loop (S (Z.to_nat maxRetries)) url maxRetries 0.

(** [for (const selector of selectors)] of [waitForSelectorWithFallback]. *)
Fixpoint waitForSelectorWithFallback (selectors : list string) : PM Val :=
  match selectors with
  | [] => ret VNull
  | selector :: rest =>
      found <- try_catch
                 (element <- call (WaitForSelector selector false (Some Constants.ELEMENT)) ;;
                  if truthy element then ret (Some element) else ret None)
                 (fun error => ret None) ;;
      match found with
      | Some element => ret element
      | None => waitForSelectorWithFallback rest
      end
  end.

(** The file is named after [name] and the time of the call, in
    milliseconds. *)
Definition takeScreenshot (name : string) : PM string :=
  timestamp <- date_now ;;
  let filename := "linkedin-" ++ name ++ "-" ++ decimal timestamp ++ ".png" in
  try_catch
    (call (Screenshot filename) ;; ret filename)
    (fun error => ret EmptyString).


(* ---------------------------------------------------------------- *)
(** *** services/postService.ts *)

Definition invalid_post_url : string :=
  "Invalid LinkedIn post URL. Expected format includes " ++ q "linkedin.com/feed/update/"
    ++ " or " ++ q "linkedin.com/posts/".

Definition navigation_failed : string :=
  "Failed to navigate to the LinkedIn post after multiple attempts".

(** The common prologue of the four post operations: validate the URL,
    navigate with the default three attempts, wait for the post container. *)
Definition open_post (postUrl : string) : PM unit :=
  if negb (isValidLinkedInPostUrl postUrl) then throw invalid_post_url
  else
    navigationSuccess <- navigateWithRetry postUrl 3 ;;
    if negb navigationSuccess then throw navigation_failed
    else
      call (WaitForSelector Constants.POST_CONTAINER false (Some Constants.ELEMENT)) ;;
      ret tt.

Definition likePost (postUrl : string) : PM bool :=
  try_catch
    (open_post postUrl ;;
     let likeButtonSelectors := split Constants.LIKE_BUTTON ", " in
     likeButton <- waitForSelectorWithFallback likeButtonSelectors ;;
     if negb (truthy likeButton) then
       takeScreenshot "post-like-button-missing" ;;
       throw "Like button not found. LinkedIn may have changed their UI."
     else
       isAlreadyLiked <- call (Evaluate Pressed likeButton) ;;
       if truthy isAlreadyLiked then ret true
       else
         call (Click likeButton 1) ;;
         waitForTimeout Constants.ACTION ;;
         isNowLiked <- call (Evaluate Pressed likeButton) ;;
         if negb (truthy isNowLiked) then
           takeScreenshot "post-like-failed" ;;
           throw "Like action did not register. The post might not be likeable."
         else ret true)
    (fun error => throw ("Failed to like LinkedIn post: " ++ error)).

Definition commentOnPost (postUrl comment : string) : PM bool :=
  try_catch
    (open_post postUrl ;;
     let commentButtonSelectors := split Constants.COMMENT_BUTTON ", " in
     commentButton <- waitForSelectorWithFallback commentButtonSelectors ;;
     if negb (truthy commentButton) then
       takeScreenshot "post-comment-button-missing" ;;
       throw "Comment button not found. LinkedIn may have changed their UI."
     else
       call (Click commentButton 1) ;;
       waitForTimeout Constants.ACTION ;;
       let commentTextboxSelectors := split Constants.COMMENT_TEXTBOX ", " in
       commentTextbox <- waitForSelectorWithFallback commentTextboxSelectors ;;
       if negb (truthy commentTextbox) then
         takeScreenshot "post-comment-textbox-missing" ;;
         throw "Comment textbox not found. LinkedIn may have changed their UI."
       else
         call (Click commentTextbox 1) ;;
         waitForTimeout 500 ;;
         call (TypeEl commentTextbox comment Constants.TYPING) ;;
         waitForTimeout 1000 ;;
         let submitButtonSelectors := split Constants.COMMENT_SUBMIT ", " in
         submitButton <- waitForSelectorWithFallback submitButtonSelectors ;;
         if negb (truthy submitButton) then
           takeScreenshot "post-comment-submit-missing" ;;
           throw "Comment submit button not found. LinkedIn may have changed their UI."
         else
           call (Click submitButton 1) ;;
           waitForTimeout (Constants.ACTION * 2) ;;
           ret true)
    (fun error => throw ("Failed to comment on LinkedIn post: " ++ error)).

Definition shareButtonSelectors : list string :=
  [ "button.share-actions__primary-action";
    "button.artdeco-button[aria-label*=" ++ q "repost" ++ " i]";
    "button.artdeco-button[aria-label*=" ++ q "share" ++ " i]";
    "button[data-control-name=" ++ q "share" ++ "]";
    ".feed-shared-control-menu__item[aria-label*=" ++ q "share" ++ " i]";
    ".feed-shared-control-menu__item[aria-label*=" ++ q "repost" ++ " i]" ].

Definition shareDialogSelectors : list string :=
  [ ".share-box__content"; ".artdeco-modal__content";
    "div[role=" ++ q "dialog" ++ "]"; ".share-creation-state" ].

Definition shareTextAreaSelectors : list string :=
  [ "div[role=" ++ q "textbox" ++ "]"; ".share-creation-state__textarea";
    ".ql-editor"; ".mentions-texteditor__content" ].

Definition postButtonSelectors : list string :=
  [ "button.share-actions__primary-action"; "button.artdeco-button--primary";
    "button[aria-label*=" ++ q "Post" ++ " i]";
    "button[aria-label*=" ++ q "Share" ++ " i]";
    "button.share-creation-state__submit" ].

Definition sharePost (postUrl shareText : string) : PM bool :=
  try_catch
    (open_post postUrl ;;
     shareButton <- waitForSelectorWithFallback shareButtonSelectors ;;
     if negb (truthy shareButton) then
       takeScreenshot "post-share-button-missing" ;;
       throw "Share button not found. LinkedIn may have changed their UI."
     else
       call (Click shareButton 1) ;;
       waitForTimeout Constants.ACTION ;;
       shareDialog <- waitForSelectorWithFallback shareDialogSelectors ;;
       if negb (truthy shareDialog) then
         takeScreenshot "post-share-dialog-missing" ;;
         throw "Share dialog not found. LinkedIn may have changed their UI."
       else
         (if negb (shareText =? EmptyString) && has_non_space shareText then
            shareTextArea <- waitForSelectorWithFallback shareTextAreaSelectors ;;
            if truthy shareTextArea then
              call (Click shareTextArea 1) ;;
              call (TypeEl shareTextArea shareText Constants.TYPING) ;;
              waitForTimeout 1000
            else ret tt
          else ret tt) ;;
         postButton <- waitForSelectorWithFallback postButtonSelectors ;;
         if negb (truthy postButton) then
           takeScreenshot "post-share-submit-missing" ;;
           throw "Post/Share submit button not found. LinkedIn may have changed their UI."
         else
           call (Click postButton 1) ;;
           waitForTimeout (Constants.ACTION * 2) ;;
           ret true)
    (fun error => throw ("Failed to share LinkedIn post: " ++ error)).

(** The extraction callback runs inside the page; its record is the value the
    driver answers to [Evaluate ExtractPost]. *)
Definition getPostInfo (postUrl : string) : PM Val :=
  try_catch
    (open_post postUrl ;;
     postData <- call (Evaluate ExtractPost VUndefined) ;;
     ret postData)
    (fun error =>
       takeScreenshot "post-info-error" ;;
       throw ("Failed to get LinkedIn post information: " ++ error)).

(* ---------------------------------------------------------------- *)
(** *** The node file: login *)

(** [credentials?.username as string] *)
Definition email_of (credentials : option Credentials) : string :=
  match credentials with
  | Some c => username c
  | None => EmptyString
  end.

(** [Promise.all([click, page.waitForNavigation(...)]).catch(async e =>
    { await page.waitForTimeout(WAIT_TIMES.NAVIGATION) })] *)
Definition click_and_wait (click : PageCmd) : PM unit :=
  try_catch
    (promise_all2 (call click)
                  (call (WaitForNavigation networkidle2 Node.NAVIGATION)))
    (fun error => waitForTimeout Node.NAVIGATION).

Definition handle2FA (twoFactorCode : option string) : PM unit :=
  try_catch
    (if negb (truthy (text twoFactorCode)) then
       throw "Two-factor authentication code is required but not provided"
     else
       verificationInput <-
         call (WaitForSelector Node.LOGIN_VERIFICATION_CODE true (Some Node.NAVIGATION)) ;;
       if negb (truthy verificationInput) then ret tt
       else
         call (TypeSel Node.LOGIN_VERIFICATION_CODE (as_string (text twoFactorCode)) Node.TYPING) ;;
         click_and_wait (ClickSel Node.LOGIN_VERIFICATION_SUBMIT) ;;
         ret tt)
    (fun error => ret tt).

(** [for (const selector of submitButtonSelectors)]; the result is
    [submitButtonFound]. *)
Fixpoint challenge_submit (selectors : list string) : PM bool :=
  match selectors with
  | [] => ret false
  | selector :: rest =>
      submitButton <- call (Query selector) ;;
      if truthy submitButton then
        click_and_wait (Click submitButton 1) ;;
        ret true
      else challenge_submit rest
  end.

(** [for (const button of anyButtons)]; the result is [buttonClicked]. *)
Fixpoint challenge_any_button (anyButtons : list Handle) : PM bool :=
  match anyButtons with
  | [] => ret false
  | button :: rest =>
      buttonText <- call (Evaluate TextContent (VElem button)) ;;
      let lower := toLowerCase (as_string buttonText) in
      if truthy buttonText
         && (includes lower "submit" || includes lower "continue" || includes lower "next")
      then
        promise_all2
          (call (Click (VElem button) 1))
          (try_catch (call (WaitForNavigation networkidle2 Node.NAVIGATION))
                     (fun error => ret VUndefined)) ;;
        ret true
      else challenge_any_button rest
  end.

Definition handleSecurityChallenge (ctx : Ctx) : PM unit :=
  try_catch
    (call (Screenshot "security-challenge-before.png") ;;
     securityInput <- call (Query Node.SECURITY_CHALLENGE) ;;
     if truthy securityInput then
       credentials <- host (getCredentials ctx) ;;
       let email := email_of credentials in
       call (Click securityInput 3) ;;
       call (TypeEl securityInput email Node.TYPING) ;;
       let submitButtonSelectors := split Node.SECURITY_CHALLENGE_SUBMIT ", " in
       submitButtonFound <- challenge_submit submitButtonSelectors ;;
       (if negb submitButtonFound then
          anyButtons <- call (QueryAll "button") ;;
          buttonClicked <- challenge_any_button (as_array anyButtons) ;;
          if negb buttonClicked then
            throw "Could not find any button to submit the security challenge"
          else ret tt
        else ret tt) ;;
       call (Screenshot "security-challenge-after.png") ;;
       ret tt
     else ret tt)
    (fun error => throw ("Security challenge handling failed: " ++ error)).

(* ---------------------------------------------------------------- *)
(** *** The node file: checkpoint pages *)

Definition buttonSelectors : list string :=
  [ "button"; "button[type=" ++ q "submit" ++ "]"; "button.artdeco-button";
    "button.primary-action-button"; "button.artdeco-button--primary";
    "button.form__submit"; "a.primary-action-button";
    "input[type=" ++ q "submit" ++ "]" ].

Definition buttonTextOptions : list string :=
  [ "Continue"; "Verify"; "Next"; "Submit"; "I Agree"; "Approve"; "Done";
    "Confirm"; "Yes"; "Allow"; "Proceed"; "Sign in"; "Send code" ].

Definition textInputSelector : string :=
  "input[type=" ++ q "text" ++ "], input[type=" ++ q "email" ++ "], input[type="
    ++ q "tel" ++ "]".

(** [for (const input of textInputs)]: a failing fill is logged and skipped. *)
Fixpoint fill_inputs (email : string) (textInputs : list Handle) : PM unit :=
  match textInputs with
  | [] => ret tt
  | input :: rest =>
      try_catch
        (call (Click (VElem input) 3) ;;
         call (TypeEl (VElem input) email 50) ;;
         waitForTimeout 1000)
        (fun err => ret tt) ;;
      fill_inputs email rest
  end.

(** [for (const button of buttons)] of the search by text; [buttonClicked] is
    the flag on entry and the result is the flag on exit.  The flag is set
    between the click and the screen shot, so a failing screen shot leaves it
    set without reaching [break]. *)
Fixpoint click_by_text (buttonText : string) (buttons : list Handle)
                       (buttonClicked : bool) : PM bool :=
  match buttons with
  | [] => ret buttonClicked
  | button :: rest =>
      text <- call (Evaluate TextContentTrim (VElem button)) ;;
      if truthy text && includes (toLowerCase (as_string text)) (toLowerCase buttonText)
      then
        clicked <- try_catch
                     (promise_all2
                        (call (Click (VElem button) 1))
                        (try_catch (call (WaitForNavigation networkidle2 5000))
                                   (fun error => ret VUndefined)) ;;
                      ret true)
                     (fun err => ret false) ;;
        if clicked then
          waitForTimeout 3000 ;;
          shot <- try_catch
                    (call (Screenshot "linkedin-checkpoint-after-action.png") ;; ret true)
                    (fun err => ret false) ;;
          if shot then ret true
          else click_by_text buttonText rest true
        else click_by_text buttonText rest buttonClicked
      else click_by_text buttonText rest buttonClicked
  end.

(** [for (const buttonText of buttonTextOptions)]; the result is
    [buttonClicked]. *)
Fixpoint click_text_options (options : list string) : PM bool :=
  match options with
  | [] => ret false
  | buttonText :: rest =>
      buttons <- call (QueryAll "button, a.artdeco-button") ;;
      buttonClicked <- click_by_text buttonText (as_array buttons) false ;;
      if buttonClicked then ret true else click_text_options rest
  end.

(** [for (const button of buttons)] of the generic search; the result is
    [true] when the function returned from inside the loop. *)
Fixpoint click_generic (buttons : list Handle) : PM bool :=
  match buttons with
  | [] => ret false
  | button :: rest =>
      isDisabled <- call (Evaluate Disabled (VElem button)) ;;
      if truthy isDisabled then click_generic rest
      else
        call (Click (VElem button) 1) ;;
        waitForTimeout 2000 ;;
        now <- date_now ;;
        call (Screenshot ("linkedin-checkpoint-after-click-" ++ decimal now ++ ".png")) ;;
        newUrl <- page_url ;;
        if negb (includes newUrl "checkpoint") then ret true
        else click_generic rest
  end.

(** [for (const selector of buttonSelectors)]; an error under one selector is
    logged and the next selector is tried. *)
Fixpoint click_generic_selectors (selectors : list string) : PM bool :=
  match selectors with
  | [] => ret false
  | selector :: rest =>
      returned <- try_catch
                    (buttons <- call (QueryAll selector) ;;
                     click_generic (as_array buttons))
                    (fun err => ret false) ;;
      if returned then ret true else click_generic_selectors rest
  end.

(** [this.getCredentials(...).then(cred => cred?.headless).catch(() => true)] *)
Definition checkpoint_headless (ctx : Ctx) : Val :=
  match getCredentials ctx with
  | Done (Some cred) => flag (headless cred)
  | Done None => VUndefined
  | Fail _ => VBool true
  end.

Definition checkpoint_headless_msg : string :=
  "Could not automatically handle LinkedIn checkpoint page. Try running with headless=false to manually approve the login.".

Definition checkpoint_stuck_msg : string :=
  "Even after waiting for user intervention, still stuck at LinkedIn checkpoint page.".

(** One call of [handleCheckpoint]; [self] is what the nested call
    [handleCheckpoint.call(this, page)] does. *)
Definition handleCheckpoint_call (self : PM unit) (ctx : Ctx) : PM unit :=
      try_catch
        (call (Screenshot "linkedin-checkpoint.png") ;;
         currentUrl <- page_url ;;
         pageContent <- call Content ;;
         call Title ;;
         textInputs <- call (QueryAll textInputSelector) ;;
         (if (0 <? List.length (as_array textInputs))%nat then
            credentials <- host (getCredentials ctx) ;;
            fill_inputs (email_of credentials) (as_array textInputs)
          else ret tt) ;;
         buttonClicked <- click_text_options buttonTextOptions ;;
         returned <- (if negb buttonClicked
                      then click_generic_selectors buttonSelectors
                      else ret false) ;;
         if returned then ret tt
         else
           verificationOptions <-
             call (QueryAll "form, .verification-step, .security-verification") ;;
           (if (0 <? List.length (as_array verificationOptions))%nat then
              call (Screenshot "linkedin-checkpoint-verification-steps.png") ;; ret tt
            else ret tt) ;;
           try_catch
             (rememberDeviceCheckbox <- call (Query ("input[type=" ++ q "checkbox" ++ "]")) ;;
              if truthy rememberDeviceCheckbox then
                call (Click rememberDeviceCheckbox 1) ;; ret tt
              else ret tt)
             (fun err => ret tt) ;;
           finalUrl <- page_url ;;
           if includes finalUrl "linkedin.com/feed" || includes finalUrl "linkedin.com.home"
           then ret tt
           else if includes finalUrl "checkpoint" && negb (finalUrl =? currentUrl)
           then self
           else
             call (Screenshot "linkedin-checkpoint-final.png") ;;
             let headless := checkpoint_headless ctx in
             if truthy headless then throw checkpoint_headless_msg
             else
               waitForTimeout 30000 ;;
               newUrl <- page_url ;;
               if includes newUrl "linkedin.com/feed"
                  || includes newUrl "linkedin.com/home"
                  || negb (includes newUrl "checkpoint")
               then ret tt
               else throw checkpoint_stuck_msg)
        (fun error => throw ("Checkpoint handling failed: " ++ error)).

(** [handleCheckpoint] calls itself without a bound of its own; [fuel] is the
    number of nested calls the model follows before it answers [Diverge]. *)
Fixpoint handleCheckpoint (fuel : nat) (ctx : Ctx) : PM unit :=
  match fuel with
  | O => diverge
  | S fuel' => handleCheckpoint_call (handleCheckpoint fuel' ctx) ctx
  end.

Definition loginToLinkedIn (fuel : nat) (ctx : Ctx) : PM unit :=
  try_catch
    (credentials <- host (getCredentials ctx) ;;
     match credentials with
     | None => throw "No LinkedIn browser credentials provided"
     | Some credentials =>
         call (Goto "https://www.linkedin.com/login" networkidle2 None) ;;
         usernameSelector <-
           call (WaitForSelector Node.LOGIN_USERNAME false (Some Node.NAVIGATION)) ;;
         if negb (truthy usernameSelector) then
           throw "LinkedIn login form not found. LinkedIn may have changed their login page."
         else
           call (TypeSel Node.LOGIN_USERNAME (username credentials) Node.TYPING) ;;
           call (TypeSel Node.LOGIN_PASSWORD (password credentials) Node.TYPING) ;;
           click_and_wait (ClickSel Node.LOGIN_SUBMIT) ;;
           call (Screenshot "linkedin-login-debug.png") ;;
           (if truthy (flag (use2FA credentials))
            then handle2FA (twoFactorCode credentials)
            else ret tt) ;;
           handleSecurityChallenge ctx ;;
           currentUrl <- page_url ;;
           if includes currentUrl "linkedin.com/feed"
              || includes currentUrl "linkedin.com/home"
              || includes currentUrl "linkedin.com/checkpoint/lg/login-submit"
           then ret tt
           else if includes currentUrl "linkedin.com/checkpoint"
           then handleCheckpoint fuel ctx
           else throw ("Login might have failed. Current URL: " ++ currentUrl)
     end)
    (fun error =>
       call (Screenshot "linkedin-login-failure.png") ;;
       throw ("LinkedIn login failed: " ++ error)).

(* ---------------------------------------------------------------- *)
(** *** The node file: post operations *)

Definition handlePostOperations (ctx : Ctx) (operation : string) (itemIndex : nat)
  : PM ActionResult :=
  try_catch
    (url <- host (getNodeParameter ctx "url" itemIndex) ;;
     call (Goto url networkidle2 None) ;;
     if operation =? "like" then
       call (WaitForSelector Node.LIKE_BUTTON false None) ;;
       call (ClickSel Node.LIKE_BUTTON) ;;
       waitForTimeout Node.ACTION ;;
       ret {| success := true; action := "liked"; url := url; comment := None |}
     else if operation =? "comment" then
       commentText <- host (getNodeParameter ctx "commentText" itemIndex) ;;
       call (WaitForSelector Node.COMMENT_BUTTON false None) ;;
       call (ClickSel Node.COMMENT_BUTTON) ;;
       waitForTimeout Node.ACTION ;;
       call (WaitForSelector Node.COMMENT_TEXTBOX false None) ;;
       call (ClickSel Node.COMMENT_TEXTBOX) ;;
       call (TypeSel Node.COMMENT_TEXTBOX commentText Node.TYPING) ;;
       call (WaitForSelector Node.COMMENT_SUBMIT false None) ;;
       call (ClickSel Node.COMMENT_SUBMIT) ;;
       waitForTimeout (Node.ACTION * 2) ;;
       ret {| success := true; action := "commented"; url := url;
              comment := Some commentText |}
     else if operation =? "share" then
       throw "Share operation not implemented yet"
     else
       throw ("Operation " ++ operation ++ " is not supported for post resource"))
    (fun error => throw ("Post operation '" ++ operation ++ "' failed: " ++ error)).

End Page.

(* ------------------------------------------------------------------ *)
(** ** The node file: execute *)

Section Execute.

Context {St : Type} (drv : Driver St).

(** The profile and feed handlers receive the page only and drive nothing
    else; no statement below depends on what they do with it. *)
Variable handleProfileOperations : Ctx -> string -> nat -> M (PWorld St) Val.
Variable handleFeedOperations : Ctx -> string -> nat -> M (PWorld St) Val.

Abbreviation BM := (M (BWorld St)).

(** [await puppeteer.launch(...)], [await browser.newPage()],
    [await browser.close()] *)
Definition bcall (c : BrowserCmd) : BM Val :=
  fun bw =>
    let (r, s') := drv_browser drv c (st (pw bw)) in
    (match r with Done v => Ok v | Fail m => Throw m end,
     {| pw := {| st := s'; plog := plog (pw bw) |}; blog := (c, resolved r) :: blog bw |}).

(** Code that holds the page only. *)
Definition on_page {A} (m : M (PWorld St) A) : BM A :=
  fun bw =>
    let (r, w') := m (pw bw) in
    (r, {| pw := w'; blog := blog bw |}).

(** The body of the [for] loop for item [i]; [page] tells whether the variable
    [page] is defined. *)
Definition execute_item (ctx : Ctx) (page : bool) (i : nat) (returnData : list Item)
  : BM (list Item) :=
  try_catch
    (resource <- host (getNodeParameter ctx "resource" i) ;;
     operation <- host (getNodeParameter ctx "operation" i) ;;
     if (authentication ctx =? "browser") && page then
       result <-
         (if resource =? "post" then
            r <- on_page (handlePostOperations drv ctx operation i) ;; ret (JResult r)
          else if resource =? "profile" then
            v <- on_page (handleProfileOperations ctx operation i) ;; ret (JValue v)
          else if resource =? "feed" then
            v <- on_page (handleFeedOperations ctx operation i) ;; ret (JValue v)
          else throw ("Resource " ++ resource ++ " is not supported")) ;;
       ret (returnData ++ [ {| json := result; pairedItem := i |} ])%list
     else if authentication ctx =? "apiKey" then
       throw "API-based operations are not implemented yet"
     else ret returnData)
    (fun error =>
       if continueOnFail ctx then
         ret (returnData ++ [ {| json := JError error; pairedItem := i |} ])%list
       else throw error).

(** [for (let i = 0; i < items.length; i++)], with [n] items left. *)
Fixpoint execute_items (ctx : Ctx) (page : bool) (n i : nat) (returnData : list Item)
  : BM (list Item) :=
  match n with
  | O => ret returnData
  | S n' =>
      returnData' <- execute_item ctx page i returnData ;;
      execute_items ctx page n' (S i) returnData'
  end.

(** [execute].  The variable [browser] is assigned by the launch and by
    nothing else, so the handler's [if (browser)] holds exactly when the launch
    has returned: the model opens the [try] at that point, and lets an error
    raised before it pass through the handler unchanged. *)
Definition execute (fuel : nat) (ctx : Ctx) : BM (list (list Item)) :=
  let items := getInputData ctx in
  if authentication ctx =? "browser" then
    credentials <- host (getCredentials ctx) ;;
    match credentials with
    | None => throw "Cannot read properties of undefined (reading 'headless')"
    | Some credentials =>
        let headless := js_or (flag (headless credentials)) (VBool true) in
        bcall (Launch headless) ;;
        try_catch
          (bcall NewPage ;;
           on_page (call drv (SetDefaultTimeout Node.NAVIGATION)) ;;
           on_page (call drv (SetDefaultNavigationTimeout Node.NAVIGATION)) ;;
           on_page (loginToLinkedIn drv fuel ctx) ;;
           returnData <- execute_items ctx true items 0 [] ;;
           bcall Close ;;
           ret [returnData])
          (fun error => bcall Close ;; throw error)
    end
  else
    returnData <- execute_items ctx false items 0 [] ;;
    ret [returnData].

End Execute.

(* ------------------------------------------------------------------ *)
(** ** Pages to run the code on *)

(** *** A static document *)

(** The state of an element as the resolver's contract speaks of it; an
    element that is in the document is present. *)
Record Element : Type := {
  handle : Handle;
  visible : bool;
  enabled : bool
}.

(** A document: which element each selector matches first, if any. *)
Definition Dom := list (string * Element).

Fixpoint dom_find (sel : string) (d : Dom) : option Element :=
  match d with
  | [] => None
  | (s, e) :: rest => if s =? sel then Some e else dom_find sel rest
  end.

Definition timeout_exceeded : string := "waiting for selector failed: timeout exceeded".

(** The sites below keep no time: their clock shows one instant. *)
Definition epoch : N := 1700000000000.

(** Puppeteer on a document that does not change: [waitForSelector] resolves
    to the element once it is in the document, and asks for it to be visible
    only under the option [visible: true]; it rejects when the time is up.
    [page.$] answers [null] for no match. *)
Definition static_page (c : PageCmd) (d : Dom) : Res Val * Dom :=
  match c with
  | WaitForSelector sel vis _ =>
      match dom_find sel d with
      | Some e =>
          if vis && negb (visible e) then (Fail timeout_exceeded, d)
          else (Done (VElem (handle e)), d)
      | None => (Fail timeout_exceeded, d)
      end
  | Query sel =>
      (Done (match dom_find sel d with Some e => VElem (handle e) | None => VNull end), d)
  | QueryAll sel =>
      (Done (VArr (match dom_find sel d with Some e => [handle e] | None => [] end)), d)
  | _ => (Done VUndefined, d)
  end.

Definition static_driver : Driver Dom := {|
  drv_url := fun _ => "about:blank";
  drv_now := fun _ => epoch;
  drv_tick := fun _ d => d;
  drv_page := static_page;
  drv_browser := fun _ d => (Done VUndefined, d)
|}.

Definition fresh {St} (s : St) : PWorld St := {| st := s; plog := [] |}.

(** The resolver's contract as the specification words it: the first
    candidate whose element is present, visible and enabled. *)
Fixpoint resolve_spec (d : Dom) (selectors : list string) : option Element :=
  match selectors with
  | [] => None
  | sel :: rest =>
      match dom_find sel d with
      | Some e => if visible e && enabled e then Some e else resolve_spec d rest
      | None => resolve_spec d rest
      end
  end.

(** The first candidate whose element is present. *)
Fixpoint first_present (d : Dom) (selectors : list string) : option Element :=
  match selectors with
  | [] => None
  | sel :: rest =>
      match dom_find sel d with
      | Some e => Some e
      | None => first_present d rest
      end
  end.

Definition handle_or_null (o : option Element) : Val :=
  match o with Some e => VElem (handle e) | None => VNull end.

(** A hidden first candidate before an interactable second one. *)
Definition hidden_then_shown : Dom :=
  [ ("#a", {| handle := 1; visible := false; enabled := true |});
    ("#b", {| handle := 2; visible := true; enabled := true |}) ].

(** The empty document, nothing sent to it yet. *)
Definition blank : PWorld Dom := fresh [].

(** *** A page whose loads fail a number of times *)

(** The state counts the loads that still fail. *)
Definition flaky_driver : Driver nat := {|
  drv_url := fun _ => "about:blank";
  drv_now := fun _ => epoch;
  drv_tick := fun _ n => n;
  drv_page := fun c (n : nat) =>
    match c, n with
    | Goto _ _ _, S k => (Fail "net::ERR_CONNECTION_RESET", k)
    | _, _ => (Done VUndefined, n)
    end;
  drv_browser := fun _ n => (Done VUndefined, n)
|}.

(** *** A checkpoint that always leads to another checkpoint *)

Definition checkpoint_a : string := "https://www.linkedin.com/checkpoint/challenge/a".
Definition checkpoint_b : string := "https://www.linkedin.com/checkpoint/challenge/b".

(** The page shows one button, "Continue"; clicking it loads the other of two
    checkpoint addresses. *)
Definition ever_checkpoint_driver : Driver bool := {|
  drv_url := fun b : bool => if b then checkpoint_a else checkpoint_b;
  drv_now := fun _ => epoch;
  drv_tick := fun _ b => b;
  drv_page := fun c (b : bool) =>
    match c with
    | QueryAll sel =>
        if sel =? "button, a.artdeco-button" then (Done (VArr [0]), b)
        else (Done (VArr []), b)
    | Evaluate TextContentTrim _ => (Done (VStr "Continue"), b)
    | Click _ _ => (Done VUndefined, negb b)
    | Query _ => (Done VNull, b)
    | Content | Title => (Done (VStr EmptyString), b)
    | _ => (Done VUndefined, b)
    end;
  drv_browser := fun _ b => (Done VUndefined, b)
|}.

(** *** A site with a login form and a post *)

Record Site : Type := {
  signed_in : bool;     (* the session is signed in *)
  pressed : bool;       (* the like control of the post shows as pressed *)
  registers : bool;     (* a click on the like control takes effect *)
  toggles : nat         (* how often the like state was changed *)
}.

Definition sign_in (s : Site) : Site :=
  {| signed_in := true; pressed := pressed s; registers := registers s;
     toggles := toggles s |}.

Definition press (s : Site) : Site :=
  if registers s
  then {| signed_in := signed_in s; pressed := negb (pressed s); registers := true;
          toggles := S (toggles s) |}
  else s.

(** The login form signs in on submit and asks for no second factor; every
    other selector the code waits for is on the page; every other click
    lands on the like control. *)
Definition site_driver : Driver Site := {|
  drv_url := fun s : Site =>
    if signed_in s then "https://www.linkedin.com/feed/"
    else "https://www.linkedin.com/login";
  drv_now := fun _ => epoch;
  drv_tick := fun _ s => s;
  drv_page := fun c (s : Site) =>
    match c with
    | WaitForSelector sel _ _ =>
        if sel =? Node.LOGIN_VERIFICATION_CODE then (Fail timeout_exceeded, s)
        else (Done (VElem 1), s)
    | ClickSel sel =>
        if sel =? Node.LOGIN_SUBMIT then (Done VUndefined, sign_in s)
        else (Done VUndefined, press s)
    | Click _ _ => (Done VUndefined, press s)
    | Evaluate Pressed _ => (Done (VBool (pressed s)), s)
    | Query _ => (Done VNull, s)
    | QueryAll _ => (Done (VArr []), s)
    | _ => (Done VUndefined, s)
    end;
  drv_browser := fun _ s => (Done VUndefined, s)
|}.

Definition a_post (is_pressed can_register : bool) : Site :=
  {| signed_in := true; pressed := is_pressed; registers := can_register; toggles := 0 |}.

Definition signed_out : Site :=
  {| signed_in := false; pressed := false; registers := true; toggles := 0 |}.

(** *** A checkpoint of three pages *)

Inductive Stage := stage_a | stage_b | stage_c.

Definition next_stage (s : Stage) : Stage :=
  match s with
  | stage_a => stage_b
  | stage_b => stage_c
  | stage_c => stage_c
  end.

(** The pages still to come. *)
Definition stages_left (s : Stage) : nat :=
  match s with
  | stage_a => 2
  | stage_b => 1
  | stage_c => 0
  end.

(** Each page shows one button, "Continue"; it loads the next page, and the
    last page stays where it is. *)
Definition staged_checkpoint_driver : Driver Stage := {|
  drv_url := fun s : Stage =>
    match s with
    | stage_a => checkpoint_a
    | stage_b => checkpoint_b
    | stage_c => "https://www.linkedin.com/checkpoint/challenge/c"
    end;
  drv_now := fun _ => epoch;
  drv_tick := fun _ s => s;
  drv_page := fun c (s : Stage) =>
    match c with
    | QueryAll sel =>
        if sel =? "button, a.artdeco-button" then (Done (VArr [0]), s)
        else (Done (VArr []), s)
    | Evaluate TextContentTrim _ => (Done (VStr "Continue"), s)
    | Click _ _ => (Done VUndefined, next_stage s)
    | Query _ => (Done VNull, s)
    | Content | Title => (Done (VStr EmptyString), s)
    | _ => (Done VUndefined, s)
    end;
  drv_browser := fun _ s => (Done VUndefined, s)
|}.

(** *** Hosts *)

Definition some_credentials : Credentials := {|
  username := "user@example.test";
  password := "secret";
  use2FA := Some false;
  twoFactorCode := None;
  headless := Some true
|}.

(** Two-factor login switched on, no code entered. *)
Definition credentials_2fa_no_code : Credentials := {|
  username := "user@example.test";
  password := "secret";
  use2FA := Some true;
  twoFactorCode := Some EmptyString;
  headless := Some true
|}.

(** A host with [n] items, each asking for the same operation on the same
    post. *)
Definition post_host (c : Credentials) (operation : string) (n : nat) (continue : bool)
  : Ctx := {|
  getCredentials := Done (Some c);
  getInputData := n;
  authentication := "browser";
  getNodeParameter := fun name _ =>
    if name =? "resource" then Done "post"
    else if name =? "operation" then Done operation
    else if name =? "url" then Done "https://www.linkedin.com/posts/123"
    else Fail "Could not get parameter";
  continueOnFail := continue
|}.

Definition like_host (c : Credentials) (n : nat) (continue : bool) : Ctx :=
  post_host c "like" n continue.

Definition no_handler {St} (_ : Ctx) (_ : string) (_ : nat) : M (PWorld St) Val :=
  throw "not implemented".

Definition count_page (f : PageCmd -> bool) (l : list (PageCmd * bool)) : nat :=
  List.length (filter (fun e => f (fst e)) l).

Definition is_click (c : PageCmd) : bool :=
  match c with Click _ _ | ClickSel _ => true | _ => false end.

Definition is_goto (c : PageCmd) : bool :=
  match c with Goto _ _ _ => true | _ => false end.

Definition is_probe (c : PageCmd) : bool :=
  match c with Evaluate Pressed _ => true | _ => false end.

(** The interactions that act on the page: loads, clicks and typing. *)
Definition is_interaction (c : PageCmd) : bool :=
  match c with
  | Goto _ _ _ | Click _ _ | ClickSel _ | TypeSel _ _ _ | TypeEl _ _ _ => true
  | _ => false
  end.

Definition is_close (e : BrowserCmd * bool) : bool :=
  match fst e with Close => true | _ => false end.

Definition is_launched (e : BrowserCmd * bool) : bool :=
  match e with (Launch _, true) => true | _ => false end.

Definition closes (l : list (BrowserCmd * bool)) : nat := List.length (filter is_close l).

(** A launch that asks for a headless browser, or no launch at all. *)
Definition headless_launch (e : BrowserCmd * bool) : bool :=
  match fst e with
  | Launch (VBool true) => true
  | Launch _ => false
  | _ => true
  end.

(** A browser process about to be started on a site in state [s]. *)
Definition visit {St} (s : St) : BWorld St := {| pw := fresh s; blog := [] |}.

(** Credentials that ask for a visible browser. *)
Definition credentials_visible : Credentials := {|
  username := "user@example.test";
  password := "secret";
  use2FA := Some false;
  twoFactorCode := None;
  headless := Some false
|}.

Definition launched (l : list (BrowserCmd * bool)) : nat := List.length (filter is_launched l).

Definition post_url : string := "https://www.linkedin.com/posts/123".


(* ------------------------------------------------------------------ *)
(** ** Vocabulary of the statements *)

(** [k] failed loads, each followed by the delay of one second; newest
    first. *)
Fixpoint failed_attempts (url : string) (k : nat) : list (PageCmd * bool) :=
  match k with
  | O => []
  | S j =>
      (WaitForTimeout 1000, true)
        :: (Goto url networkidle2 (Some Constants.NAVIGATION), false)
        :: failed_attempts url j
  end.

(** Code run from a world: it does not diverge, and when it returns, the
    value and the world satisfy [Q]. *)
Definition post {W A} (m : M W A) (w : W) (Q : A -> W -> Prop) : Prop :=
  match m w with
  | (Ok a, w') => Q a w'
  | (Throw _, _) => True
  | (Diverge, _) => False
  end.

(** The address is no checkpoint any more, or is one of the signed-in
    surfaces [handleCheckpoint] looks for. *)
Definition past_checkpoint (u : string) : bool :=
  negb (includes u "checkpoint")
  || includes u "linkedin.com/feed"
  || includes u "linkedin.com.home"
  || includes u "linkedin.com/home".

Section Vocabulary.

Context {St : Type} (drv : Driver St).

(** The address the page is at. *)
Definition url_of (w : PWorld St) : string := drv_url drv (st w).

(** How far a surface is from its last page: [rank] never grows from a
    state [s] to a later state [s'], and shrinks whenever the address has
    changed. *)
Definition advances (rank : St -> nat) (s s' : St) : Prop :=
  (rank s' <= rank s)%nat
  /\ (drv_url drv s' <> drv_url drv s -> (rank s' < rank s)%nat).

(** Code that moves the surface along [rank] only, and does not diverge. *)
Definition keeps (rank : St -> nat) {A} (m : M (PWorld St) A) : Prop :=
  forall w, advances rank (st w) (st (snd (m w))) /\ fst (m w) <> Diverge.

(** Code that sends nothing to Puppeteer or to the browser. *)
Definition quiet {A} (m : M (BWorld St) A) : Prop :=
  forall bw, blog (snd (m bw)) = blog bw.

(** [browser.close()] rejects in some state of the driver. *)
Definition close_rejects : Prop :=
  exists s m s', drv_browser drv Close s = (Fail m, s').

End Vocabulary.

(** The host asks for no browser session, or has no credentials for one. *)
Definition no_session (ctx : Ctx) : Prop :=
  (authentication ctx =? "browser") = false
  \/ forall c, getCredentials ctx <> Done (Some c).

(** What [execute] sends to Puppeteer and to the browser, newest first:
    nothing, when no session is asked for; or a launch that failed; or launch, new page and one close;
    or, when the close that ends a completed batch rejects, a second close
    from the handler; or launch and new page alone when the page code does
    not finish. *)
Inductive session_log (no_session rejects : Prop)
  : Outcome (list (list Item)) -> list (BrowserCmd * bool) -> Prop :=
| no_browser r : no_session -> session_log no_session rejects r []
| launch_failed r : session_log no_session rejects r [(Launch (VBool true), false)]
| closed_once r c n :
    (c = false -> rejects /\ exists e, r = Throw e) ->
    session_log no_session rejects r [(Close, c); (NewPage, n); (Launch (VBool true), true)]
| closed_again r c :
    rejects ->
    session_log no_session rejects r [(Close, c); (Close, false); (NewPage, true); (Launch (VBool true), true)]
| never_finished :
    session_log no_session rejects Diverge [(NewPage, true); (Launch (VBool true), true)].

Definition liked_result : ActionResult :=
  {| success := true; action := "liked"; url := post_url; comment := None |}.

(* ------------------------------------------------------------------ *)
(** ** More of the sources *)

(** *** utils/validation.ts, the company predicate *)

Definition isValidLinkedInCompanyUrl (url : string) : bool :=
  if url =? EmptyString then false else includes url "linkedin.com/company/".

(** *** constants/selectors.ts, what the two services below read *)

Module Shared.
Definition FEED := "https://www.linkedin.com/feed/".
Definition LOGIN_FAILED := "LinkedIn login failed. Please check your credentials.".
Definition PROFILE_CONNECT_BUTTON :=
  "button.pv-s-profile-actions__connect, button[aria-label*=" ++ q "Connect"
    ++ " i], button.artdeco-button--primary:not([aria-label*=" ++ q "Message" ++ "])".
Definition ADD_NOTE_BUTTON :=
  "button.artdeco-modal__confirm-dialog-btn, button.mr1, button[aria-label*="
    ++ q "Add a note" ++ " i]".
Definition CONNECTION_MESSAGE_FIELD :=
  "textarea#custom-message, textarea.send-invite__custom-message, textarea[name="
    ++ q "message" ++ "]".
Definition SEND_CONNECTION_BUTTON :=
  "button.artdeco-button--primary, button.ml1, button[aria-label*=" ++ q "Send" ++ " i]".
Definition LOGGED_IN_INDICATOR := ".feed-identity-module, .global-nav, .authentication-outlet".
Definition PROFILE_MENU := "button.global-nav__primary-link, button.artdeco-dropdown__trigger".
Definition SIGN_OUT :=
  "a[href*=" ++ q "/m/logout/" ++ "], button.global-nav__secondary-item".
Definition MESSAGE_BUTTON :=
  "button.pv-s-profile-actions__message, button[aria-label*=" ++ q "Message"
    ++ "], button.artdeco-button--primary:not([aria-label*=" ++ q "Connect" ++ "])".
Definition MESSAGE_FIELD :=
  ".msg-form__contenteditable, .msg-form__message-texteditor, div[role=" ++ q "textbox" ++ "]".
Definition MESSAGE_SEND :=
  "button.msg-form__send-button, button[type=" ++ q "submit" ++ "]".
End Shared.

Section Services.

Context {St : Type} (drv : Driver St).

Abbreviation SM := (M (PWorld St)).

(** [await page.$(sel).catch(() => null)] and
    [await page.waitForSelector(sel, ...).catch(() => null)] *)
Definition or_null (c : PageCmd) : SM Val :=
  try_catch (call drv c) (fun error => ret VNull).

(* ---------------------------------------------------------------- *)
(** *** services/authenticationService.ts *)

Definition verifyLoggedIn : SM bool :=
  try_catch
    (call drv (Screenshot "./linkedin-login-debug.png") ;;
     currentUrl <- page_url drv ;;
     if includes currentUrl "/login" || includes currentUrl "/checkpoint" then
       throw "Still on login page after authentication attempt"
     else
       waitForTimeout drv Constants.ACTION ;;
       loggedInIndicator <- or_null (Query Shared.LOGGED_IN_INDICATOR) ;;
       if negb (truthy loggedInIndicator) then
         throw "Could not detect logged-in state elements"
       else ret true)
    (fun error => throw Shared.LOGIN_FAILED).

Definition isLoggedIn : SM bool :=
  try_catch
    (call drv (Goto Shared.FEED networkidle2 (Some Constants.NAVIGATION)) ;;
     currentUrl <- page_url drv ;;
     if includes currentUrl "/login" || includes currentUrl "/checkpoint" then ret false
     else
       loggedInIndicator <- or_null (Query Shared.LOGGED_IN_INDICATOR) ;;
       ret (truthy loggedInIndicator))
    (fun error => ret false).

Definition logout : SM bool :=
  try_catch
    (call drv (Goto Shared.FEED networkidle2 (Some Constants.NAVIGATION)) ;;
     profileMenu <- or_null (Query Shared.PROFILE_MENU) ;;
     if negb (truthy profileMenu) then throw "Could not find profile menu button"
     else
       call drv (Click profileMenu 1) ;;
       waitForTimeout drv Constants.ACTION ;;
       signOutButton <- or_null (Query Shared.SIGN_OUT) ;;
       if negb (truthy signOutButton) then throw "Could not find sign out button"
       else
         try_catch
           (promise_all2
              (call drv (WaitForNavigation networkidle2 Constants.NAVIGATION))
              (call drv (Click signOutButton 1)))
           (fun e => ret tt) ;;
         currentUrl <- page_url drv ;;
         ret (includes currentUrl "/login"
              || includes currentUrl "/logout"
              || negb (includes currentUrl "linkedin.com/feed")))
    (fun error => ret false).

(* ---------------------------------------------------------------- *)
(** *** services/profileService.ts *)

Definition visitProfile (profileUrl : string) : SM unit :=
  try_catch
    (if negb (includes profileUrl "linkedin.com/in/") then
       throw "Invalid LinkedIn profile URL. Expected format: https://www.linkedin.com/in/username"
     else
       call drv (Goto profileUrl networkidle2 (Some Constants.NAVIGATION)) ;;
       call drv (Screenshot "linkedin-profile-page.png") ;;
       currentUrl <- page_url drv ;;
       if includes currentUrl "linkedin.com/login" then
         throw "Login required. Please run the login operation first."
       else ret tt)
    (fun error =>
       call drv (Screenshot "linkedin-profile-page-navigation.png") ;;
       throw ("Failed to visit LinkedIn profile: " ++ error)).

(** The note of a connection request: [if (message && message.trim() !== '')]. *)
Definition add_note (message : string) : SM unit :=
  if negb (message =? EmptyString) && has_non_space message then
    addNoteButton <- or_null (Query Shared.ADD_NOTE_BUTTON) ;;
    if truthy addNoteButton then
      call drv (Click addNoteButton 1) ;;
      waitForTimeout drv Constants.ACTION ;;
      messageField <-
        or_null (WaitForSelector Shared.CONNECTION_MESSAGE_FIELD false (Some Constants.ELEMENT)) ;;
      if truthy messageField then
        call drv (Click messageField 3) ;;
        call drv (TypeEl messageField message Constants.TYPING) ;;
        waitForTimeout drv Constants.ACTION
      else ret tt
    else ret tt
  else ret tt.

Definition sendConnectionRequest (message : string) : SM bool :=
  try_catch
    (currentUrl <- page_url drv ;;
     if negb (includes currentUrl "linkedin.com/in/") then
       throw "Not on a LinkedIn profile page. Cannot send connection request."
     else
       connectButton <-
         or_null (WaitForSelector Shared.PROFILE_CONNECT_BUTTON false (Some Constants.ELEMENT)) ;;
       if negb (truthy connectButton) then
         call drv (Screenshot "linkedin-profile-error-connect.png") ;;
         throw "Connect button not found. You might already be connected or LinkedIn changed their UI."
       else
         call drv (Click connectButton 1) ;;
         waitForTimeout drv Constants.ACTION ;;
         add_note message ;;
         sendButton <-
           or_null (WaitForSelector Shared.SEND_CONNECTION_BUTTON false (Some Constants.ELEMENT)) ;;
         if negb (truthy sendButton) then
           call drv (Screenshot "linkedin-send-button-not-found.png") ;;
           throw "Send button not found. LinkedIn may have changed their UI."
         else
           call drv (Click sendButton 1) ;;
           waitForTimeout drv Constants.ACTION ;;
           ret true)
    (fun error => throw ("Failed to send connection request: " ++ error)).

Definition sendMessage (message : string) : SM bool :=
  try_catch
    (currentUrl <- page_url drv ;;
     if negb (includes currentUrl "linkedin.com/in/") then
       throw "Not on a LinkedIn profile page. Cannot send message."
     else
       messageButton <- or_null (Query Shared.MESSAGE_BUTTON) ;;
       if negb (truthy messageButton) then
         throw "Message button not found. You might not be connected to this person."
       else
         call drv (Click messageButton 1) ;;
         (* waitForSelector(...).then(async messageField => ...).catch(error => ...) *)
         try_catch
           (messageField <-
              call drv (WaitForSelector Shared.MESSAGE_FIELD false (Some Constants.ELEMENT)) ;;
            if negb (truthy messageField) then throw "Message input field not found."
            else
              call drv (Click messageField 1) ;;
              call drv (TypeEl messageField message Constants.TYPING) ;;
              sendButton <- call drv (Query Shared.MESSAGE_SEND) ;;
              if negb (truthy sendButton) then throw "Message send button not found."
              else
                call drv (Click sendButton 1) ;;
                waitForTimeout drv Constants.ACTION ;;
                ret true)
           (fun error => throw ("Failed to send message: " ++ error)) ;;
         ret true)
    (fun error => throw ("Failed to send message: " ++ error)).

End Services.

(* ------------------------------------------------------------------ *)
(** ** utils/logger.ts *)

Module Logger.

Inductive LogLevel := ERROR | WARN | INFO | DEBUG.

(** The numeric value of the enum member. *)
Definition value (l : LogLevel) : nat :=
  match l with
  | ERROR => 0
  | WARN => 1
  | INFO => 2
  | DEBUG => 3
  end.

Inductive Stream := console_error | console_warn | console_log.

(** One call of the console: the stream, the formatted line, and for
    [console.error] its second argument, the error's message or the empty
    string. *)
Record Line : Type := {
  stream : Stream;
  line : string;
  detail : option string
}.

(** The module's state, [currentLogLevel], and what the console has
    received, newest first. *)
Record State : Type := {
  currentLogLevel : LogLevel;
  console : list Line
}.

(** [let currentLogLevel: LogLevel = LogLevel.INFO] *)
Definition initial : State := {| currentLogLevel := INFO; console := [] |}.

Definition setLogLevel (level : LogLevel) (s : State) : State :=
  {| currentLogLevel := level; console := console s |}.

Definition formatLogMessage (message prefix : string) : string :=
  "LinkedIn Node [" ++ prefix ++ "]: " ++ message.

Definition print (l : Line) (s : State) : State :=
  {| currentLogLevel := currentLogLevel s; console := l :: console s |}.

Definition error (message : string) (err : option string) (s : State) : State :=
  if (value ERROR <=? value (currentLogLevel s))%nat then
    print {| stream := console_error; line := formatLogMessage message "ERROR";
             detail := Some (match err with Some e => e | None => EmptyString end) |} s
  else s.

Definition warn (message : string) (s : State) : State :=
  if (value WARN <=? value (currentLogLevel s))%nat then
    print {| stream := console_warn; line := formatLogMessage message "WARN";
             detail := None |} s
  else s.

Definition info (message : string) (s : State) : State :=
  if (value INFO <=? value (currentLogLevel s))%nat then
    print {| stream := console_log; line := formatLogMessage message "INFO";
             detail := None |} s
  else s.

Definition debug (message : string) (s : State) : State :=
  if (value DEBUG <=? value (currentLogLevel s))%nat then
    print {| stream := console_log; line := formatLogMessage message "DEBUG";
             detail := None |} s
  else s.

(** The logging function of a level. *)
Definition write (l : LogLevel) (message : string) : State -> State :=
  match l with
  | ERROR => error message None
  | WARN => warn message
  | INFO => info message
  | DEBUG => debug message
  end.

End Logger.

(* ------------------------------------------------------------------ *)
(** ** The node file: loading the feed *)

Module Feed.

(** What [scrollToLoadPosts] asks of the page. *)
Inductive FeedCmd :=
| ScrollBy            (* page.evaluate(() => window.scrollBy(0, 1000)) *)
| Settle              (* page.waitForTimeout(1000) *)
| CountPosts.         (* page.$$eval(SELECTORS.POST_CONTAINER, posts => posts.length) *)

(** The feed behind the page: scrolling and counting may reject and may load
    posts; waiting cannot reject. *)
Record FeedDriver (St : Type) : Type := {
  scrollBy : St -> Res unit * St;
  settle : St -> St;
  countPosts : St -> Res Z * St
}.
Arguments scrollBy {St} _ _.
Arguments settle {St} _ _.
Arguments countPosts {St} _ _.

Record FWorld (St : Type) : Type := {
  feed : St;
  flog : list FeedCmd     (* newest first *)
}.
Arguments feed {St} _.
Arguments flog {St} _.
Arguments Build_FWorld {St} _ _.

Definition maxScrollAttempts : Z := 10.

Section Scroll.

Context {St : Type} (fd : FeedDriver St).

Definition scroll : M (FWorld St) unit :=
  fun w =>
    let (r, s') := scrollBy fd (feed w) in
    (match r with Done v => Ok v | Fail m => Throw m end,
     {| feed := s'; flog := ScrollBy :: flog w |}).

Definition wait_for_posts : M (FWorld St) unit :=
  fun w => (Ok tt, {| feed := settle fd (feed w); flog := Settle :: flog w |}).

Definition count : M (FWorld St) Z :=
  fun w =>
    let (r, s') := countPosts fd (feed w) in
    (match r with Done v => Ok v | Fail m => Throw m end,
     {| feed := s'; flog := CountPosts :: flog w |}).

(** The [do { ... } while (true)] loop; [fuel] bounds the rounds the model
    follows, [currentPostCount] and [scrollAttempts] are the variables on
    entry of a round. *)
Fixpoint scroll_loop (fuel : nat) (desiredPostCount currentPostCount scrollAttempts : Z)
  : M (FWorld St) unit :=
  match fuel with
  | O => diverge
  | S fuel' =>
      let previousPostCount := currentPostCount in
      scroll ;;
      wait_for_posts ;;
      currentPostCount <- count ;;
      let scrollAttempts := (scrollAttempts + 1)%Z in
      if (currentPostCount >=? desiredPostCount)%Z
         || (scrollAttempts >=? maxScrollAttempts)%Z
         || (previousPostCount =? currentPostCount)%Z
      then ret tt
      else scroll_loop fuel' desiredPostCount currentPostCount scrollAttempts
  end.

Definition scrollToLoadPosts (fuel : nat) (desiredPostCount : Z) : M (FWorld St) unit :=
  scroll_loop fuel desiredPostCount 0 0.

End Scroll.

Definition rounds (l : list FeedCmd) : nat :=
  List.length (filter (fun c => match c with ScrollBy => true | _ => false end) l).

(** A feed that shows [n] posts and loads no more. *)
Definition static_feed : FeedDriver Z := {|
  scrollBy := fun n => (Done tt, n);
  settle := fun n => n;
  countPosts := fun n => (Done n, n)
|}.

(** A feed that loads three more posts at every scroll. *)
Definition growing_feed : FeedDriver Z := {|
  scrollBy := fun n => (Done tt, (n + 3)%Z);
  settle := fun n => n;
  countPosts := fun n => (Done n, n)
|}.

End Feed.

(* ------------------------------------------------------------------ *)
(** ** Vocabulary of the further statements *)

(** [s] contains [sub]: some text before it, some text after it. *)
Definition contains (s sub : string) : Prop :=
  exists before after, s = before ++ sub ++ after.

Definition is_typing (c : PageCmd) : bool :=
  match c with TypeSel _ _ _ | TypeEl _ _ _ => true | _ => false end.

Definition is_lookup (c : PageCmd) : bool :=
  match c with WaitForSelector _ _ _ => true | _ => false end.

Definition is_screenshot (c : PageCmd) : bool :=
  match c with Screenshot _ => true | _ => false end.

(** Clicks and typing: what changes the page for its user. *)
Definition is_input (c : PageCmd) : bool := is_click c || is_typing c.

(** What a log costs, at one unit for each command [f] selects. *)
Definition spent (f : PageCmd -> bool) (l : list (PageCmd * bool)) : nat :=
  count_page f l.

(** Code that does not diverge and sends at most [n] commands of the kind
    [f], whatever the page does. *)
Definition within {St A} (f : PageCmd -> bool) (n : nat) (m : M (PWorld St) A) : Prop :=
  forall w, exists l,
    plog (snd (m w)) = (l ++ plog w)%list
    /\ (spent f l <= n)%nat
    /\ fst (m w) <> Diverge.

(** Code that always resolves. *)
Definition resolves {W A} (m : M W A) : Prop :=
  forall w, exists a w', m w = (Ok a, w').

(** A site on a member's profile page, with every control the services look
    for. *)
Definition profile_driver : Driver unit := {|
  drv_url := fun _ => "https://www.linkedin.com/in/someone/";
  drv_now := fun _ => epoch;
  drv_tick := fun _ u => u;
  drv_page := fun c u =>
    match c with
    | WaitForSelector _ _ _ | Query _ => (Done (VElem 1), u)
    | _ => (Done VUndefined, u)
    end;
  drv_browser := fun _ u => (Done VUndefined, u)
|}.

(** A page that rejects every command. *)
Definition dead_driver : Driver unit := {|
  drv_url := fun _ => "about:blank";
  drv_now := fun _ => epoch;
  drv_tick := fun _ u => u;
  drv_page := fun _ u => (Fail "Protocol error: Target closed", u);
  drv_browser := fun _ u => (Fail "Protocol error: Target closed", u)
|}.

(** A profile page whose message dialog never opens. *)
Definition no_dialog_driver : Driver unit := {|
  drv_url := fun _ => "https://www.linkedin.com/in/someone/";
  drv_now := fun _ => epoch;
  drv_tick := fun _ u => u;
  drv_page := fun c u =>
    match c with
    | Query _ => (Done (VElem 1), u)
    | WaitForSelector _ _ _ => (Fail timeout_exceeded, u)
    | _ => (Done VUndefined, u)
    end;
  drv_browser := fun _ u => (Done VUndefined, u)
|}.

(** Code run from a world: when it returns, the value and the world satisfy
    [Q]; nothing is said of a run that rejects or does not end. *)
Definition ensures {W A} (m : M W A) (w : W) (Q : A -> W -> Prop) : Prop :=
  forall a w', m w = (Ok a, w') -> Q a w'.

(** The addresses [loginToLinkedIn] itself takes for signed in. *)
Definition login_accepts (u : string) : bool :=
  includes u "linkedin.com/feed"
  || includes u "linkedin.com/home"
  || includes u "linkedin.com/checkpoint/lg/login-submit".

(** A checkpoint of one page: the login form is there, every submit of it
    leads to the checkpoint page, and the "Continue" button of that page
    loads the feed.  [cleared] tells whether the button has been clicked. *)
Definition cleared_checkpoint_driver : Driver bool := {|
  drv_url := fun cleared : bool =>
    if cleared then "https://www.linkedin.com/feed/" else checkpoint_a;
  drv_now := fun _ => epoch;
  drv_tick := fun _ b => b;
  drv_page := fun c (b : bool) =>
    match c with
    | WaitForSelector _ _ _ => (Done (VElem 1), b)
    | QueryAll sel =>
        if sel =? "button, a.artdeco-button" then (Done (VArr [0]), b)
        else (Done (VArr []), b)
    | Evaluate TextContentTrim _ => (Done (VStr "Continue"), b)
    | Evaluate _ _ => (Done (VBool false), b)
    | Click _ _ => (Done VUndefined, true)
    | Query _ => (Done VNull, b)
    | Content => (Done (VStr "<html><body>Let us do a quick security check</body></html>"), b)
    | Title => (Done (VStr "Security Verification | LinkedIn"), b)
    | _ => (Done VUndefined, b)
    end;
  drv_browser := fun _ b => (Done VUndefined, b)
|}.

Definition close_failed : string := "Protocol error (Browser.close): Target closed".

(** The site of [site_driver] in a browser whose [close()] rejects. *)
Definition unclosable_driver : Driver Site := {|
  drv_url := drv_url site_driver;
  drv_now := drv_now site_driver;
  drv_tick := drv_tick site_driver;
  drv_page := drv_page site_driver;
  drv_browser := fun c s =>
    match c with
    | Close => (Fail close_failed, s)
    | _ => (Done VUndefined, s)
    end
|}.

(** The string of the given UTF-8 bytes. *)
Definition utf8 (bytes : list nat) : string :=
  fold_right (fun n s => String (ascii_of_nat n) s) EmptyString bytes.

(** A host that asks for the API key mode, with [n] items. *)
Definition api_host (n : nat) (continue : bool) : Ctx := {|
  getCredentials := Done None;
  getInputData := n;
  authentication := "apiKey";
  getNodeParameter := fun name _ =>
    if name =? "resource" then Done "post" else Done "like";
  continueOnFail := continue
|}.

Definition api_not_implemented : string := "API-based operations are not implemented yet".

(** The record [execute] leaves for item [i] in the API key mode. *)
Definition api_failure (i : nat) : Item :=
  {| json := JError api_not_implemented; pairedItem := i |}.

(** A feed that shows [c] posts whatever is scrolled. *)
Definition frozen_feed (c : Z) : Feed.FeedDriver unit := {|
  Feed.scrollBy := fun u => (Done tt, u);
  Feed.settle := fun u => u;
  Feed.countPosts := fun u => (Done c, u)
|}.

(* ================================================================== *)
(** * Properties *)

(** ** Strings and validation *)

Lemma isValidLinkedInPostUrl_false (url : string) :
  includes url "linkedin.com/feed/update/" = false ->
  includes url "linkedin.com/posts/" = false ->
  isValidLinkedInPostUrl url = false.
Proof.
  intros H1 H2. unfold isValidLinkedInPostUrl.
  destruct (url =? EmptyString); [reflexivity|].
  now rewrite H1, H2.
Qed.

Example isValidLinkedInPostUrl_feed :
  isValidLinkedInPostUrl "https://www.linkedin.com/feed/update/urn:li:activity:1" = true.
Proof. reflexivity. Qed.

Example isValidLinkedInPostUrl_empty : isValidLinkedInPostUrl EmptyString = false.
Proof. reflexivity. Qed.

Example split_like_button :
  List.length (split Constants.LIKE_BUTTON ", ") = 4.
Proof. reflexivity. Qed.

Example split_submit_selectors :
  split "button.form__submit, button.signin__button" ", "
  = ["button.form__submit"; "button.signin__button"].
Proof. reflexivity. Qed.

Example includes_examples :
  includes "https://www.linkedin.com/checkpoint/challenge/a" "checkpoint" = true
  /\ includes "https://www.linkedin.com/feed/" "linkedin.com.home" = false
  /\ includes EmptyString EmptyString = true.
Proof. repeat split. Qed.

Example toLowerCase_example : toLowerCase "Send Code" = "send code".
Proof. reflexivity. Qed.

(** ** The monad *)

Section MonadFacts.

Context {W : Type}.

Lemma bind_Ok {A B} (m : M W A) (k : A -> M W B) w a w1 :
  m w = (Ok a, w1) -> bind m k w = k a w1.
Proof. unfold bind. now intros ->. Qed.

Lemma bind_Throw {A B} (m : M W A) (k : A -> M W B) w e w1 :
  m w = (Throw e, w1) -> bind m k w = (Throw e, w1).
Proof. unfold bind. now intros ->. Qed.

Lemma bind_Diverge {A B} (m : M W A) (k : A -> M W B) w w1 :
  m w = (Diverge, w1) -> bind m k w = (Diverge, w1).
Proof. unfold bind. now intros ->. Qed.

Lemma try_catch_Ok {A} (m : M W A) h w a w1 :
  m w = (Ok a, w1) -> try_catch m h w = (Ok a, w1).
Proof. unfold try_catch. now intros ->. Qed.

Lemma try_catch_Throw {A} (m : M W A) h w e w1 :
  m w = (Throw e, w1) -> try_catch m h w = h e w1.
Proof. unfold try_catch. now intros ->. Qed.

Lemma try_catch_Diverge {A} (m : M W A) h w w1 :
  m w = (Diverge, w1) -> try_catch m h w = (Diverge, w1).
Proof. unfold try_catch. now intros ->. Qed.

End MonadFacts.

(** ** utils/browser.ts: the selector resolver *)

Section Resolver.

Context {St : Type} (drv : Driver St).

(** One bounded-time lookup either resolves or rejects; neither ends the
    resolver with an error. *)
Lemma call_cases (c : PageCmd) (w : PWorld St) :
  (exists v, call drv c w =
             (Ok v, {| st := snd (drv_page drv c (st w)); plog := (c, true) :: plog w |})
             /\ fst (drv_page drv c (st w)) = Done v)
  \/
  (exists m, call drv c w =
             (Throw m, {| st := snd (drv_page drv c (st w)); plog := (c, false) :: plog w |})
             /\ fst (drv_page drv c (st w)) = Fail m).
Proof.
  unfold call. destruct (drv_page drv c (st w)) as [[v | m] s']; simpl.
  - left. now exists v.
  - right. now exists m.
Qed.

Lemma waitForSelectorWithFallback_total (selectors : list string) :
  forall w, exists v w', waitForSelectorWithFallback drv selectors w = (Ok v, w').
Proof.
  induction selectors as [| sel rest IH]; intros w; simpl.
  - now exists VNull, w.
  - unfold bind at 1. unfold try_catch, bind at 1.
    destruct (call_cases (WaitForSelector sel false (Some Constants.ELEMENT)) w)
      as [[v [-> _]] | [m [-> _]]].
    + destruct (truthy v); simpl.
      * eexists _, _. reflexivity.
      * apply IH.
    + simpl. apply IH.
Qed.

(** C4. When every candidate of the list is absent, that is, the bounded-time
    lookup of each rejects in every state the page can be in, the resolver
    returns [null]; it does not raise.  [Inv] describes the states the page
    can be in. *)
Theorem waitForSelectorWithFallback_all_absent
    (Inv : St -> Prop) (selectors : list string) (w : PWorld St) :
  (forall c s, Inv s -> Inv (snd (drv_page drv c s))) ->
  (forall sel s, In sel selectors -> Inv s ->
     exists m, fst (drv_page drv (WaitForSelector sel false (Some Constants.ELEMENT)) s)
               = Fail m) ->
  Inv (st w) ->
  exists w', waitForSelectorWithFallback drv selectors w = (Ok VNull, w').
Proof.
  intros Hstep Habsent. revert w.
  induction selectors as [| sel rest IH]; intros w Hw; simpl.
  - now exists w.
  - unfold bind at 1. unfold try_catch, bind at 1.
    destruct (call_cases (WaitForSelector sel false (Some Constants.ELEMENT)) w)
      as [[v [_ Hv]] | [m [-> _]]].
    + destruct (Habsent sel (st w) (or_introl eq_refl) Hw) as [m Hm]. congruence.
    + simpl. apply IH.
      * intros sel' s Hin. apply Habsent. now right.
      * simpl. now apply Hstep.
Qed.

End Resolver.

Lemma waitForSelectorWithFallback_all_absent_witness :
  exists w', waitForSelectorWithFallback static_driver ["#a"; "#b"] blank
             = (Ok VNull, w').
Proof.
  apply (waitForSelectorWithFallback_all_absent static_driver (fun d => d = [])).
  - intros c s ->. destruct c; reflexivity.
  - intros sel s _ ->. simpl. now exists timeout_exceeded.
  - reflexivity.
Defined.

(** The resolver on a static document answers for the first candidate that
    is in the document. *)
Lemma static_resolver (d : Dom) (selectors : list string) :
  forall l,
    fst (waitForSelectorWithFallback static_driver selectors {| st := d; plog := l |})
    = Ok (handle_or_null (first_present d selectors)).
Proof.
  induction selectors as [| sel rest IH]; intros l; simpl.
  - reflexivity.
  - unfold bind at 1. unfold try_catch, bind at 1. unfold call. simpl.
    destruct (dom_find sel d) as [e |]; simpl.
    + reflexivity.
    + apply IH.
Qed.

(** C3, as the code has it.  On every document and for every ordered list of
    candidates, the resolver returns the first candidate whose element is
    present, whatever comes before it being absent; it examines neither
    visibility nor enabledness, and answers [null] when no candidate is
    present. *)
Theorem waitForSelectorWithFallback_first_present
    (selectors : list string) (w : PWorld Dom) :
  fst (waitForSelectorWithFallback static_driver selectors w)
  = Ok (handle_or_null (first_present (st w) selectors)).
Proof.
  destruct w as [d l]. apply static_resolver.
Qed.

(** C3, as the specification words it, fails: with a hidden first candidate
    and an interactable second one the contract asks for the second, and the
    resolver returns the first. *)
Lemma waitForSelectorWithFallback_returns_hidden :
  resolve_spec hidden_then_shown ["#a"; "#b"]
    = Some {| handle := 2; visible := true; enabled := true |}
  /\ fst (waitForSelectorWithFallback static_driver ["#a"; "#b"] (fresh hidden_then_shown))
     = Ok (VElem 1)
  /\ fst (waitForSelectorWithFallback static_driver ["#a"; "#b"] (fresh hidden_then_shown))
     <> Ok (handle_or_null (resolve_spec hidden_then_shown ["#a"; "#b"])).
Proof.
  repeat split; try reflexivity. discriminate.
Qed.

(** ** utils/browser.ts: navigation with retry *)

(** [k] loads of which the last one settled as [b] and the others failed. *)
Definition attempts_log (url : string) (k : nat) (b : bool) : list (PageCmd * bool) :=
  match k with
  | O => []
  | S j => (Goto url networkidle2 (Some Constants.NAVIGATION), b) :: failed_attempts url j
  end.

Lemma failed_attempts_snoc (url : string) (k : nat) :
  (failed_attempts url k
     ++ [ (WaitForTimeout 1000, true);
          (Goto url networkidle2 (Some Constants.NAVIGATION), false) ])%list
  = failed_attempts url (S k).
Proof.
  induction k as [| k IH]; [reflexivity|].
  change (failed_attempts url (S k)) with
    ((WaitForTimeout 1000, true)
       :: (Goto url networkidle2 (Some Constants.NAVIGATION), false)
       :: failed_attempts url k) at 1.
  simpl app. rewrite IH. reflexivity.
Qed.

Lemma count_goto_failed (url : string) (k : nat) :
  count_page is_goto (failed_attempts url k) = k.
Proof.
  induction k as [| k IH]; [reflexivity|].
  unfold count_page in *. simpl. now rewrite IH.
Qed.

Lemma count_goto_attempts (url : string) (k : nat) (b : bool) :
  count_page is_goto (attempts_log url k b) = k.
Proof.
  destruct k as [| k]; [reflexivity|].
  unfold attempts_log. unfold count_page. simpl.
  f_equal. apply count_goto_failed.
Qed.

Section Navigator.

Context {St : Type} (drv : Driver St).

Lemma navigate_loop_spec (url : string) (maxRetries : Z) :
  forall fuel attempts w,
    (Z.to_nat (maxRetries - attempts) < fuel)%nat ->
    exists k b w',
      navigate_loop drv fuel url maxRetries attempts w = (Ok b, w')
      /\ plog w' = (attempts_log url k b ++ plog w)%list
      /\ Z.of_nat k = (if b then Z.of_nat k else Z.max 0 (maxRetries - attempts))
      /\ (Z.of_nat k <= Z.max 0 (maxRetries - attempts))%Z
      /\ ((attempts < maxRetries)%Z -> (1 <= k)%nat).
Proof.
  induction fuel as [| fuel IH]; intros attempts w Hfuel; [lia|].
  simpl. destruct (Z.ltb_spec attempts maxRetries) as [Hlt | Hge].
  - unfold try_catch, bind at 1.
    destruct (call_cases drv (Goto url networkidle2 (Some Constants.NAVIGATION)) w)
      as [[v [-> _]] | [m [-> _]]].
    + exists 1%nat, true. eexists. simpl. repeat split; lia.
    + destruct (Z.geb_spec (attempts + 1) maxRetries) as [Hlast | Hmore].
      * exists 1%nat, false. eexists. simpl. repeat split; lia.
      * unfold bind at 1. unfold waitForTimeout at 1.
        match goal with
        | |- context [navigate_loop drv fuel url maxRetries (attempts + 1)%Z ?w0] =>
            destruct (IH (attempts + 1)%Z w0) as (k & b & w' & Hrun & Hlog & Hk & Hle & Hpos);
              [lia|]
        end.
        exists (S k), b, w'. rewrite Hrun. split; [reflexivity|].
        specialize (Hpos ltac:(lia)).
        destruct k as [| j]; [lia|].
        split.
        { rewrite Hlog. simpl plog. unfold attempts_log.
          rewrite <- failed_attempts_snoc. simpl. rewrite <- app_assoc. reflexivity. }
        destruct b; repeat split; lia.
  - exists 0%nat, false, w. simpl. repeat split; lia.
Qed.

(** C5.  For every address and every [maxRetries], [navigateWithRetry]
    returns a boolean and never throws.  It sends [k] page loads, where [k]
    is at most [maxRetries] (none when [maxRetries] is not positive); every
    load but the last has failed and is followed by the fixed delay of one
    second; it returns [true] exactly when the last load succeeded, and
    [false] only after all [maxRetries] loads have failed. *)
Theorem navigateWithRetry_bounded (url : string) (maxRetries : Z) (w : PWorld St) :
  exists k b w',
    navigateWithRetry drv url maxRetries w = (Ok b, w')
    /\ plog w' = (attempts_log url k b ++ plog w)%list
    /\ count_page is_goto (attempts_log url k b) = k
    /\ (Z.of_nat k <= Z.max 0 maxRetries)%Z
    /\ (b = true -> (1 <= k)%nat)
    /\ (b = false -> Z.of_nat k = Z.max 0 maxRetries).
Proof.
  unfold navigateWithRetry.
  destruct (navigate_loop_spec url maxRetries (S (Z.to_nat maxRetries)) 0 w)
    as (k & b & w' & Hrun & Hlog & Hk & Hle & Hpos).
  { rewrite Z.sub_0_r. lia. }
  rewrite Z.sub_0_r in *.
  exists k, b, w'. repeat split; auto.
  - apply count_goto_attempts.
  - intros ->. destruct k; [|lia].
    destruct (Z.ltb_spec 0 maxRetries) as [H | H]; [specialize (Hpos H); lia|].
    exfalso. clear Hpos Hk Hle.
    unfold navigate_loop in Hrun. fold (@navigate_loop St) in Hrun.
    destruct (Z.ltb_spec 0 maxRetries); [lia|]. discriminate.
  - intros ->. exact Hk.
Qed.

End Navigator.

Example navigateWithRetry_third_attempt :
  navigateWithRetry flaky_driver "u" 3 (fresh 2%nat)
  = (Ok true, {| st := 0%nat; plog := attempts_log "u" 3 true |}).
Proof. reflexivity. Qed.

Example navigateWithRetry_exhausted :
  navigateWithRetry flaky_driver "u" 3 (fresh 5%nat)
  = (Ok false, {| st := 2%nat; plog := attempts_log "u" 3 false |}).
Proof. reflexivity. Qed.

Example navigateWithRetry_no_attempt :
  navigateWithRetry flaky_driver "u" (-1) (fresh 5%nat) = (Ok false, fresh 5%nat).
Proof. reflexivity. Qed.

(** ** services/postService.ts: the URL precondition *)

Section PostUrl.

Context {St : Type} (drv : Driver St).

Lemma open_post_invalid (postUrl : string) (w : PWorld St) :
  isValidLinkedInPostUrl postUrl = false ->
  open_post drv postUrl w = (Throw invalid_post_url, w).
Proof. intros H. unfold open_post. now rewrite H. Qed.

Lemma takeScreenshot_log (name : string) (w : PWorld St) :
  let filename := "linkedin-" ++ name ++ "-" ++ decimal (drv_now drv (st w)) ++ ".png" in
  exists v ok,
    takeScreenshot drv name w
    = (Ok v, {| st := snd (drv_page drv (Screenshot filename) (st w));
                plog := (Screenshot filename, ok) :: plog w |}).
Proof.
  intros filename. unfold takeScreenshot, try_catch, bind, date_now. fold filename.
  destruct (call_cases drv (Screenshot filename) w)
    as [[v [-> _]] | [m [-> _]]]; eexists _, _; reflexivity.
Qed.

(** C10, as the code has it.  For every address that contains neither
    "linkedin.com/feed/update/" nor "linkedin.com/posts/", the empty string
    included, [likePost], [commentOnPost] and [sharePost] throw the
    invalid-address error with the page and its log exactly as they were;
    [getPostInfo] throws it too, after its handler has sent one command, the
    diagnostic screen shot, and no load, click or typing. *)
Theorem post_operations_reject_invalid_url
    (postUrl comment shareText : string) (w : PWorld St) :
  includes postUrl "linkedin.com/feed/update/" = false ->
  includes postUrl "linkedin.com/posts/" = false ->
  likePost drv postUrl w
    = (Throw ("Failed to like LinkedIn post: " ++ invalid_post_url), w)
  /\ commentOnPost drv postUrl comment w
     = (Throw ("Failed to comment on LinkedIn post: " ++ invalid_post_url), w)
  /\ sharePost drv postUrl shareText w
     = (Throw ("Failed to share LinkedIn post: " ++ invalid_post_url), w)
  /\ exists ok,
       getPostInfo drv postUrl w
       = (Throw ("Failed to get LinkedIn post information: " ++ invalid_post_url),
          {| st := snd (drv_page drv
                          (Screenshot ("linkedin-post-info-error-"
                                       ++ decimal (drv_now drv (st w)) ++ ".png"))
                          (st w));
             plog := (Screenshot ("linkedin-post-info-error-"
                                  ++ decimal (drv_now drv (st w)) ++ ".png"), ok)
                     :: plog w |})
       /\ count_page is_interaction
            ((Screenshot ("linkedin-post-info-error-"
                          ++ decimal (drv_now drv (st w)) ++ ".png"), ok) :: plog w)
          = count_page is_interaction (plog w).
Proof.
  intros H1 H2.
  pose proof (isValidLinkedInPostUrl_false postUrl H1 H2) as Hinv.
  pose proof (open_post_invalid postUrl w Hinv) as Hopen.
  repeat split.
  - unfold likePost.
    rewrite (try_catch_Throw _ _ w invalid_post_url w); [reflexivity|].
    apply bind_Throw, Hopen.
  - unfold commentOnPost.
    rewrite (try_catch_Throw _ _ w invalid_post_url w); [reflexivity|].
    apply bind_Throw, Hopen.
  - unfold sharePost.
    rewrite (try_catch_Throw _ _ w invalid_post_url w); [reflexivity|].
    apply bind_Throw, Hopen.
  - unfold getPostInfo.
    destruct (takeScreenshot_log "post-info-error" w) as (v & ok & Hshot).
    exists ok. split; [|reflexivity].
    rewrite (try_catch_Throw _ _ w invalid_post_url w); [|apply bind_Throw, Hopen].
    erewrite bind_Ok; [|exact Hshot]. reflexivity.
Qed.

End PostUrl.

Lemma post_operations_reject_invalid_url_witness :
  likePost static_driver "https://example.test/posts/123" blank
    = (Throw ("Failed to like LinkedIn post: " ++ invalid_post_url), fresh [])
  /\ commentOnPost static_driver "https://example.test/posts/123" "hello" blank
     = (Throw ("Failed to comment on LinkedIn post: " ++ invalid_post_url), fresh [])
  /\ sharePost static_driver "https://example.test/posts/123" EmptyString blank
     = (Throw ("Failed to share LinkedIn post: " ++ invalid_post_url), fresh [])
  /\ exists ok,
       getPostInfo static_driver "https://example.test/posts/123" blank
       = (Throw ("Failed to get LinkedIn post information: " ++ invalid_post_url),
          {| st := snd (drv_page static_driver
                          (Screenshot "linkedin-post-info-error-1700000000000.png")
                          (st blank));
             plog := (Screenshot "linkedin-post-info-error-1700000000000.png", ok)
                     :: plog blank |})
       /\ count_page is_interaction
            ((Screenshot "linkedin-post-info-error-1700000000000.png", ok) :: plog blank)
          = count_page is_interaction (plog blank).
Proof.
  apply (post_operations_reject_invalid_url static_driver
           "https://example.test/posts/123" "hello" EmptyString blank);
    reflexivity.
Defined.

(** C10, as stated, fails on [getPostInfo]: on the empty address it has sent
    a command to the page by the time it throws. *)
Lemma getPostInfo_invalid_url_touches_page :
  isValidLinkedInPostUrl EmptyString = false
  /\ getPostInfo static_driver EmptyString blank
     = (Throw ("Failed to get LinkedIn post information: " ++ invalid_post_url),
        {| st := []; plog := [(Screenshot "linkedin-post-info-error-1700000000000.png", true)] |})
  /\ snd (getPostInfo static_driver EmptyString blank) <> blank.
Proof.
  repeat split. discriminate.
Qed.

(** ** The node file: checkpoint pages *)

Lemma post_bind {W A B} (m : M W A) (k : A -> M W B) (w : W) (Q : B -> W -> Prop) :
  post m w (fun a w' => post (k a) w' Q) -> post (bind m k) w Q.
Proof. unfold post, bind. destruct (m w) as [[a | e |] w']; auto. Qed.

Lemma post_throws {W A} (m : M W A) (w : W) :
  post m w (fun _ _ => False) -> exists e w', m w = (Throw e, w').
Proof.
  unfold post. destruct (m w) as [[a | e |] w']; try contradiction.
  intros _. now exists e, w'.
Qed.

Lemma post_weaken {W A} (m : M W A) (w : W) (Q Q' : A -> W -> Prop) :
  post m w Q -> (forall a w', Q a w' -> Q' a w') -> post m w Q'.
Proof. unfold post. destruct (m w) as [[a | e |] w']; auto. Qed.

Lemma post_try_catch {W A} (m : M W A) (f : string -> string) (w : W)
    (Q : A -> W -> Prop) :
  post m w Q -> post (try_catch m (fun e => throw (f e))) w Q.
Proof. unfold post, try_catch, throw. destruct (m w) as [[a | e |] w']; auto. Qed.

(** Every failure of [handleCheckpoint] carries its prefix. *)
Lemma handleCheckpoint_throws_prefixed {St} (drv : Driver St) (fuel : nat) (ctx : Ctx)
    (w w' : PWorld St) (e : string) :
  handleCheckpoint drv fuel ctx w = (Throw e, w') ->
  exists msg, e = "Checkpoint handling failed: " ++ msg.
Proof.
  destruct fuel as [| fuel]; simpl; [discriminate|].
  unfold handleCheckpoint_call, try_catch.
  match goal with
  | |- match ?body w with _ => _ end = _ -> _ =>
      destruct (body w) as [[a | e0 |] w1]
  end; intros H; inversion H. now exists e0.
Qed.

Section Checkpoint.

Context {St : Type} (drv : Driver St).

(** The surface has finitely many pages to go through: no command and no
    wait moves it away from its last page, and each change of address brings
    it closer. *)
Variable rank : St -> nat.
Hypothesis Hpage : forall c s, advances drv rank s (snd (drv_page drv c s)).
Hypothesis Htick : forall ms s, advances drv rank s (drv_tick drv ms s).

Lemma advances_refl (s : St) : advances drv rank s s.
Proof. split; [lia | congruence]. Qed.

Lemma advances_trans (s1 s2 s3 : St) :
  advances drv rank s1 s2 -> advances drv rank s2 s3 -> advances drv rank s1 s3.
Proof.
  intros [L1 D1] [L2 D2]. split; [lia|]. intros Hne.
  destruct (string_dec (drv_url drv s2) (drv_url drv s1)) as [Heq | Hne1].
  - rewrite <- Heq in Hne. specialize (D2 Hne). lia.
  - specialize (D1 Hne1). lia.
Qed.

Lemma keeps_ret {A} (a : A) : keeps drv rank (ret a).
Proof. intros w. split; [apply advances_refl | discriminate]. Qed.

Lemma keeps_throw {A} (e : string) : keeps drv rank (@throw _ A e).
Proof. intros w. split; [apply advances_refl | discriminate]. Qed.

Lemma keeps_host {A} (r : Res A) : keeps drv rank (host r).
Proof. intros w. split; [apply advances_refl | destruct r; discriminate]. Qed.

Lemma keeps_page_url : keeps drv rank (page_url drv).
Proof. intros w. split; [apply advances_refl | discriminate]. Qed.

Lemma keeps_date_now : keeps drv rank (date_now drv).
Proof. intros w. split; [apply advances_refl | discriminate]. Qed.

Lemma keeps_call (c : PageCmd) : keeps drv rank (call drv c).
Proof.
  intros w. unfold call.
  pose proof (Hpage c (st w)) as H.
  destruct (drv_page drv c (st w)) as [[v | m] s']; simpl in *; split;
    try exact H; discriminate.
Qed.

Lemma keeps_waitForTimeout (ms : N) : keeps drv rank (waitForTimeout drv ms).
Proof. intros w. split; [apply Htick | discriminate]. Qed.

Lemma keeps_bind {A B} (m : M (PWorld St) A) (k : A -> M (PWorld St) B) :
  keeps drv rank m -> (forall a, keeps drv rank (k a)) -> keeps drv rank (bind m k).
Proof.
  intros Hm Hk w. unfold bind. destruct (Hm w) as [Hu Hd].
  destruct (m w) as [[a | e |] w']; simpl in *.
  - destruct (Hk a w') as [Hu' Hd']. split; [eapply advances_trans; eauto | exact Hd'].
  - split; [exact Hu | discriminate].
  - contradiction.
Qed.

Lemma keeps_try_catch {A} (m : M (PWorld St) A) (h : string -> M (PWorld St) A) :
  keeps drv rank m -> (forall e, keeps drv rank (h e)) -> keeps drv rank (try_catch m h).
Proof.
  intros Hm Hh w. unfold try_catch. destruct (Hm w) as [Hu Hd].
  destruct (m w) as [[a | e |] w']; simpl in *.
  - split; [exact Hu | discriminate].
  - destruct (Hh e w') as [Hu' Hd']. split; [eapply advances_trans; eauto | exact Hd'].
  - contradiction.
Qed.

Lemma keeps_promise_all2 (a b : M (PWorld St) Val) :
  keeps drv rank a -> keeps drv rank b -> keeps drv rank (promise_all2 a b).
Proof.
  intros Ha Hb w. unfold promise_all2. destruct (Ha w) as [Hu Hd].
  destruct (a w) as [[v | e |] w1]; simpl in *.
  - destruct (Hb w1) as [Hu' Hd'].
    destruct (b w1) as [[v' | e' |] w2]; simpl in *;
      try contradiction; split; try discriminate; eapply advances_trans; eauto.
  - destruct (Hb w1) as [Hu' _]. split; [eapply advances_trans; eauto | discriminate].
  - contradiction.
Qed.

Lemma keeps_if {A} (c : bool) (m1 m2 : M (PWorld St) A) :
  keeps drv rank m1 -> keeps drv rank m2 -> keeps drv rank (if c then m1 else m2).
Proof. destruct c; auto. Qed.

Create HintDb keeps.
#[local] Hint Resolve keeps_ret keeps_throw keeps_host keeps_page_url keeps_date_now
  keeps_call keeps_waitForTimeout keeps_bind keeps_try_catch keeps_promise_all2 keeps_if : keeps.

Lemma keeps_fill_inputs (email : string) (inputs : list Handle) :
  keeps drv rank (fill_inputs drv email inputs).
Proof. induction inputs as [| i rest IH]; simpl; auto 10 with keeps. Qed.

Lemma keeps_click_by_text (buttonText : string) (buttons : list Handle) :
  forall flag, keeps drv rank (click_by_text drv buttonText buttons flag).
Proof.
  induction buttons as [| b rest IH]; intros flag; simpl; auto with keeps.
  apply keeps_bind; [auto with keeps|]. intros text.
  apply keeps_if; [|apply IH].
  apply keeps_bind; [auto 10 with keeps|]. intros [|]; [|apply IH].
  apply keeps_bind; [auto with keeps|]. intros _.
  apply keeps_bind; [auto 10 with keeps|]. intros [|]; auto with keeps.
Qed.

Lemma keeps_click_text_options (options : list string) :
  keeps drv rank (click_text_options drv options).
Proof.
  induction options as [| o rest IH]; simpl; auto with keeps.
  apply keeps_bind; [auto with keeps|]. intros buttons.
  apply keeps_bind; [apply keeps_click_by_text|]. intros [|]; auto with keeps.
Qed.

Lemma keeps_click_generic (buttons : list Handle) :
  keeps drv rank (click_generic drv buttons).
Proof.
  induction buttons as [| b rest IH]; simpl; auto with keeps.
  apply keeps_bind; [auto with keeps|]. intros isDisabled.
  apply keeps_if; [exact IH|].
  repeat (apply keeps_bind; [auto with keeps|]; intros ?).
  apply keeps_if; auto with keeps.
Qed.

#[local] Hint Resolve keeps_fill_inputs keeps_click_by_text keeps_click_text_options
  keeps_click_generic : keeps.

(** A step that moves along [rank], inside a sequence. *)
Lemma post_bind_keeps {A B} (m : M (PWorld St) A) (k : A -> M (PWorld St) B)
    (w : PWorld St) (Q : B -> PWorld St -> Prop) :
  keeps drv rank m ->
  (forall a w', advances drv rank (st w) (st w') -> post (k a) w' Q) ->
  post (bind m k) w Q.
Proof.
  intros Hm Hk. apply post_bind. unfold post.
  destruct (Hm w) as [Hu Hd].
  destruct (m w) as [[a | e |] w']; simpl in *; auto.
  apply (Hk a w' Hu).
Qed.

Lemma post_page_url {B} (k : string -> M (PWorld St) B) (w : PWorld St)
    (Q : B -> PWorld St -> Prop) :
  post (k (url_of drv w)) w Q -> post (bind (page_url drv) k) w Q.
Proof. intros H. apply post_bind. exact H. Qed.

(** The generic search makes [handleCheckpoint] return only on an address
    that is no checkpoint. *)
Lemma click_generic_post (buttons : list Handle) :
  forall w,
    post (click_generic drv buttons) w
         (fun r w' => advances drv rank (st w) (st w')
                      /\ (r = true -> includes (url_of drv w') "checkpoint" = false)).
Proof.
  induction buttons as [| b rest IH]; intros w; simpl.
  - unfold post, ret. split; [apply advances_refl | discriminate].
  - apply post_bind_keeps; [auto with keeps|]. intros isDisabled w1 A1.
    destruct (truthy isDisabled).
    + eapply post_weaken; [apply IH|]. intros r w' [A Hr].
      split; [eapply advances_trans; eauto | exact Hr].
    + apply post_bind_keeps; [auto with keeps|]. intros _ w2 A2.
      apply post_bind_keeps; [auto with keeps|]. intros _ w3 A3.
      apply post_bind_keeps; [auto with keeps|]. intros now w3' A3'.
      apply post_bind_keeps; [auto with keeps|]. intros _ w4 A4.
      assert (A : advances drv rank (st w) (st w4))
        by (repeat (eapply advances_trans; [eassumption|]); apply advances_refl).
      apply post_page_url.
      destruct (includes (url_of drv w4) "checkpoint") eqn:Hcp; simpl.
      * eapply post_weaken; [apply IH|]. intros r w' [A' Hr].
        split; [eapply advances_trans; eauto | exact Hr].
      * unfold post, ret. split; [exact A | intros _; exact Hcp].
Qed.

Lemma click_generic_selectors_post (selectors : list string) :
  forall w,
    post (click_generic_selectors drv selectors) w
         (fun r w' => advances drv rank (st w) (st w')
                      /\ (r = true -> includes (url_of drv w') "checkpoint" = false)).
Proof.
  induction selectors as [| sel rest IH]; intros w; simpl.
  - unfold post, ret. split; [apply advances_refl | discriminate].
  - apply post_bind.
    set (body := bind (call drv (QueryAll sel))
                      (fun buttons => click_generic drv (as_array buttons))).
    assert (Hb : post body w
                   (fun r w' => advances drv rank (st w) (st w')
                      /\ (r = true -> includes (url_of drv w') "checkpoint" = false))).
    { apply post_bind_keeps; [auto with keeps|]. intros buttons w1 A1.
      eapply post_weaken; [apply click_generic_post|]. intros r w' [A Hr].
      split; [eapply advances_trans; eauto | exact Hr]. }
    assert (Hk : keeps drv rank body) by (subst body; auto with keeps).
    unfold post in Hb |- *. unfold try_catch. destruct (Hk w) as [Hu _].
    destruct (body w) as [[r | e |] w1]; simpl in *; auto.
    + destruct Hb as [A Hr]. destruct r.
      * unfold ret. split; [exact A | exact Hr].
      * pose proof (IH w1) as H1. unfold post in H1.
        destruct (click_generic_selectors drv rest w1) as [[r' | e' |] w2]; auto.
        destruct H1 as [A' Hr']. split; [eapply advances_trans; eauto | exact Hr'].
    + pose proof (IH w1) as H1. unfold post in H1.
      destruct (click_generic_selectors drv rest w1) as [[r' | e' |] w2]; auto.
      destruct H1 as [A' Hr']. split; [eapply advances_trans; eauto | exact Hr'].
Qed.

Lemma past_checkpoint_left (u : string) :
  includes u "checkpoint" = false -> past_checkpoint u = true.
Proof. intros H. unfold past_checkpoint. now rewrite H. Qed.

(** One call of [handleCheckpoint], given that the nested call behaves on
    every page closer to the last one: it does not diverge, and it returns
    only on an address past the checkpoint. *)
Lemma handleCheckpoint_call_post (self : M (PWorld St) unit) (ctx : Ctx) (w : PWorld St) :
  (forall w', (rank (st w') < rank (st w))%nat ->
              post self w' (fun _ w'' => past_checkpoint (url_of drv w'') = true)) ->
  post (handleCheckpoint_call drv self ctx) w
       (fun _ w'' => past_checkpoint (url_of drv w'') = true).
Proof.
  intros Hself. unfold handleCheckpoint_call. apply post_try_catch.
  apply post_bind_keeps; [auto with keeps|]. intros _ w1 A1.
  apply post_page_url.
  apply post_bind_keeps; [auto with keeps|]. intros pageContent w2 A2.
  apply post_bind_keeps; [auto with keeps|]. intros _ w3 A3.
  apply post_bind_keeps; [auto with keeps|]. intros textInputs w4 A4.
  apply post_bind_keeps; [auto 10 with keeps|]. intros _ w5 A5.
  apply post_bind_keeps; [auto with keeps|]. intros buttonClicked w6 A6.
  apply post_bind.
  assert (Hret : post (if negb buttonClicked
                       then click_generic_selectors drv buttonSelectors
                       else ret false) w6
                   (fun r w' => advances drv rank (st w6) (st w')
                      /\ (r = true -> includes (url_of drv w') "checkpoint" = false))).
  { destruct buttonClicked; cbn [negb].
    - unfold post, ret. split; [apply advances_refl | discriminate].
    - apply click_generic_selectors_post. }
  unfold post in Hret |- *.
  destruct ((if negb buttonClicked
             then click_generic_selectors drv buttonSelectors
             else ret false) w6) as [[returned | e |] w7]; auto.
  destruct Hret as [A7 Hreturned].
  destruct returned.
  { unfold ret. apply past_checkpoint_left. now apply Hreturned. }
  apply post_bind_keeps; [auto with keeps|]. intros verificationOptions w8 A8.
  apply post_bind_keeps; [auto 10 with keeps|]. intros _ w9 A9.
  apply post_bind_keeps.
  { apply keeps_try_catch; [|auto with keeps].
    apply keeps_bind; [auto with keeps|]. intros cb.
    apply keeps_if; auto with keeps. }
  intros _ w10 A10.
  assert (A : advances drv rank (st w1) (st w10))
    by (repeat (eapply advances_trans; [eassumption|]); apply advances_refl).
  apply post_page_url.
  destruct (includes (url_of drv w10) "linkedin.com/feed"
            || includes (url_of drv w10) "linkedin.com.home") eqn:Hfeed.
  { unfold post, ret, past_checkpoint.
    rewrite <- !orb_assoc.
    rewrite (orb_assoc (includes _ "linkedin.com/feed")), Hfeed.
    now rewrite orb_true_r. }
  destruct (includes (url_of drv w10) "checkpoint"
            && negb (url_of drv w10 =? url_of drv w1)) eqn:Hnew.
  { apply Hself.
    apply andb_true_iff in Hnew. destruct Hnew as [_ Hne].
    apply negb_true_iff, String.eqb_neq in Hne.
    destruct A as [_ Hlt]. destruct A1 as [Hle _].
    specialize (Hlt Hne). lia. }
  apply post_bind_keeps; [auto with keeps|]. intros _ w11 A11.
  destruct (truthy (checkpoint_headless ctx)).
  { unfold post, throw. exact I. }
  apply post_bind_keeps; [auto with keeps|]. intros _ w12 A12.
  apply post_page_url.
  destruct (includes (url_of drv w12) "linkedin.com/feed"
            || includes (url_of drv w12) "linkedin.com/home"
            || negb (includes (url_of drv w12) "checkpoint")) eqn:Hout.
  - unfold post, ret, past_checkpoint.
    destruct (includes (url_of drv w12) "checkpoint"),
             (includes (url_of drv w12) "linkedin.com/feed"),
             (includes (url_of drv w12) "linkedin.com.home"),
             (includes (url_of drv w12) "linkedin.com/home"); simpl in *; congruence.
  - unfold post, throw. exact I.
Qed.

(** With one nested call per page the surface has left, [handleCheckpoint]
    ends; when it returns, the address is past the checkpoint. *)
Lemma handleCheckpoint_terminates (ctx : Ctx) :
  forall fuel w,
    (rank (st w) < fuel)%nat ->
    post (handleCheckpoint drv fuel ctx) w
         (fun _ w' => past_checkpoint (url_of drv w') = true).
Proof.
  induction fuel as [| fuel IH]; intros w Hfuel; [lia|].
  simpl. apply handleCheckpoint_call_post.
  intros w' Hlt. apply IH. lia.
Qed.

(** C1, as the code has it.  [handleCheckpoint] carries no depth bound of its
    own; what bounds its recursion is the surface.  On a surface that always
    presents a checkpoint and has finitely many pages to go through (no
    command and no wait takes it further from its last page, and every change
    of address brings it closer), [handleCheckpoint] ends after at most one
    nested call per page left, in the fatal failure
    "Checkpoint handling failed: ...". *)
Theorem handleCheckpoint_fatal_on_finite_surface (ctx : Ctx) (w : PWorld St) :
  (forall s, past_checkpoint (drv_url drv s) = false) ->
  exists msg w',
    handleCheckpoint drv (S (rank (st w))) ctx w
    = (Throw ("Checkpoint handling failed: " ++ msg), w').
Proof.
  intros Hstays.
  pose proof (handleCheckpoint_terminates ctx (S (rank (st w))) w (Nat.lt_succ_diag_r _))
    as Hpost.
  unfold post in Hpost.
  destruct (handleCheckpoint drv (S (rank (st w))) ctx w) as [[[] | e |] w'] eqn:E.
  - unfold url_of in Hpost. rewrite Hstays in Hpost. discriminate.
  - destruct (handleCheckpoint_throws_prefixed drv _ ctx w w' e E) as [msg ->].
    now exists msg, w'.
  - contradiction.
Qed.

End Checkpoint.

Lemma handleCheckpoint_fatal_on_finite_surface_witness :
  exists msg w',
    handleCheckpoint staged_checkpoint_driver (S (stages_left (st (fresh stage_a))))
      (like_host some_credentials 1 false) (fresh stage_a)
    = (Throw ("Checkpoint handling failed: " ++ msg), w').
Proof.
  apply (handleCheckpoint_fatal_on_finite_surface staged_checkpoint_driver stages_left).
  - intros c s. split;
      destruct c as [| | | sel | | | | | | | | | | p el | |], s;
      cbn -[String.eqb];
      try destruct (sel =? "button, a.artdeco-button");
      try destruct p;
      simpl; first [lia | congruence].
  - intros ms s. split; [simpl; lia | simpl; congruence].
  - intros s. destruct s; reflexivity.
Defined.

(** The three pages one after the other: three calls, the last one stuck. *)
Example handleCheckpoint_three_pages :
  fst (handleCheckpoint staged_checkpoint_driver 3 (like_host some_credentials 1 false)
         (fresh stage_a))
  = Throw ("Checkpoint handling failed: Checkpoint handling failed: "
           ++ "Checkpoint handling failed: " ++ checkpoint_headless_msg)
  /\ fst (handleCheckpoint staged_checkpoint_driver 2 (like_host some_credentials 1 false)
            (fresh stage_a))
     = Diverge.
Proof. split; reflexivity. Qed.

(** On the surface that answers every "Continue" with the other checkpoint
    address, one call hands over to the nested call. *)
Lemma handleCheckpoint_call_ever (self : M (PWorld bool) unit) (ctx : Ctx) :
  (forall w, fst (self w) = Diverge) ->
  forall w, fst (handleCheckpoint_call ever_checkpoint_driver self ctx w) = Diverge.
Proof.
  intros Hself [b l].
  destruct b; vm_compute;
    match goal with
    | |- context [self ?w0] =>
        pose proof (Hself w0) as H; destruct (self w0) as [[a | e |] w1];
          simpl in H; try discriminate; reflexivity
    end.
Qed.

Lemma handleCheckpoint_ever_diverges (ctx : Ctx) :
  forall fuel w, fst (handleCheckpoint ever_checkpoint_driver fuel ctx w) = Diverge.
Proof.
  induction fuel as [| fuel IH]; intros w.
  - reflexivity.
  - simpl. now apply handleCheckpoint_call_ever.
Qed.

(** C1, as stated, fails: on the surface that re-presents a checkpoint under
    a changed address every time, no number of nested calls lets
    [handleCheckpoint] finish, with a failure or otherwise. *)
Lemma handleCheckpoint_unbounded :
  ~ exists fuel,
      fst (handleCheckpoint ever_checkpoint_driver fuel
             (like_host some_credentials 1 false) (fresh true))
      <> Diverge.
Proof.
  intros [fuel H]. apply H. apply handleCheckpoint_ever_diverges.
Qed.

(** ** The node file: two-factor configuration *)

(** The missing code is raised and caught inside [handle2FA]: nothing is sent
    to the page and nothing reaches the caller. *)
Lemma handle2FA_missing_code {St} (drv : Driver St) (code : option string) (w : PWorld St) :
  truthy (text code) = false ->
  handle2FA drv code w = (Ok tt, w).
Proof.
  intros H. unfold handle2FA. rewrite H. reflexivity.
Qed.

(** C2, on the code.  Two-factor login is switched on and no code was entered;
    the site signs in on submit and asks for no second factor.
    [loginToLinkedIn] resolves and the session is signed in: the configuration
    error does not end the login. *)
Theorem loginToLinkedIn_ignores_missing_code :
  use2FA credentials_2fa_no_code = Some true
  /\ truthy (text (twoFactorCode credentials_2fa_no_code)) = false
  /\ fst (loginToLinkedIn site_driver 0 (like_host credentials_2fa_no_code 1 false)
            (fresh signed_out)) = Ok tt
  /\ signed_in (st (snd (loginToLinkedIn site_driver 0
                           (like_host credentials_2fa_no_code 1 false)
                           (fresh signed_out)))) = true.
Proof. repeat split. Qed.

(** ** Liking a post *)

Section Like.

Context {St : Type} (drv : Driver St).

Lemma bind_Ok_inv {A B} (m : M (PWorld St) A) (k : A -> M (PWorld St) B) w b w' :
  bind m k w = (Ok b, w') ->
  exists a w1, m w = (Ok a, w1) /\ k a w1 = (Ok b, w').
Proof.
  unfold bind. destruct (m w) as [[a | e |] w1]; try discriminate.
  intros H. now exists a, w1.
Qed.

Lemma call_Ok_inv (c : PageCmd) (w : PWorld St) v w' :
  call drv c w = (Ok v, w') ->
  drv_page drv c (st w) = (Done v, st w') /\ plog w' = (c, true) :: plog w.
Proof.
  unfold call. destruct (drv_page drv c (st w)) as [[v0 | m] s']; simpl;
    intros H; inversion H; subst; simpl; auto.
Qed.

Lemma takeScreenshot_then_throw {B} (name msg : string) (w : PWorld St) (b : B) w' :
  bind (takeScreenshot drv name) (fun _ => throw msg) w <> (Ok b, w').
Proof.
  unfold bind. destruct (takeScreenshot drv name w) as [[a | e |] w1]; discriminate.
Qed.

(** The service's [likePost] reports success only after a read of the
    control's pressed state that came out true: the last command it sent is
    that read, and the page answered it with a truthy value. *)
Lemma likePost_success_is_verified (postUrl : string) (w w' : PWorld St) (b : bool) :
  likePost drv postUrl w = (Ok b, w') ->
  b = true
  /\ exists el v s l,
       drv_page drv (Evaluate Pressed el) s = (Done v, st w')
       /\ truthy v = true
       /\ plog w' = (Evaluate Pressed el, true) :: l.
Proof.
  unfold likePost, try_catch.
  match goal with
  | |- match ?body w with _ => _ end = _ -> _ =>
      destruct (body w) as [[r | e |] w1] eqn:E; try discriminate
  end.
  intros H. inversion H; subst. clear H.
  apply bind_Ok_inv in E. destruct E as (_ & w2 & _ & E).
  apply bind_Ok_inv in E. destruct E as (likeButton & w3 & _ & E).
  destruct (truthy likeButton); simpl in E.
  2:{ exfalso. eapply takeScreenshot_then_throw. exact E. }
  apply bind_Ok_inv in E. destruct E as (isAlreadyLiked & w4 & Hprobe & E).
  apply call_Ok_inv in Hprobe. destruct Hprobe as [Hdrv Hlog].
  destruct (truthy isAlreadyLiked) eqn:Hliked.
  - inversion E; subst. split; [reflexivity|].
    now exists likeButton, isAlreadyLiked, (st w3), (plog w3).
  - apply bind_Ok_inv in E. destruct E as (_ & w5 & _ & E).
    apply bind_Ok_inv in E. destruct E as (_ & w6 & _ & E).
    apply bind_Ok_inv in E. destruct E as (isNowLiked & w7 & Hprobe2 & E).
    apply call_Ok_inv in Hprobe2. destruct Hprobe2 as [Hdrv2 Hlog2].
    destruct (truthy isNowLiked) eqn:Hnow; simpl in E.
    2:{ exfalso. eapply takeScreenshot_then_throw. exact E. }
    inversion E; subst. split; [reflexivity|].
    now exists likeButton, isNowLiked, (st w6), (plog w6).
Qed.

End Like.

(** The service's [likePost] on a control that is already pressed: success,
    no click, the like state untouched. *)
Example likePost_already_liked :
  fst (likePost site_driver post_url (fresh (a_post true true))) = Ok true
  /\ count_page is_click (plog (snd (likePost site_driver post_url (fresh (a_post true true)))))
     = 0%nat
  /\ toggles (st (snd (likePost site_driver post_url (fresh (a_post true true))))) = 0%nat.
Proof. repeat split. Qed.

(** The service's [likePost] twice in a row on a post not yet liked: success
    both times, one change of the like state in total. *)
Example likePost_twice :
  let first := likePost site_driver post_url (fresh (a_post false true)) in
  let second := likePost site_driver post_url (snd first) in
  fst first = Ok true /\ fst second = Ok true
  /\ toggles (st (snd second)) = 1%nat /\ pressed (st (snd second)) = true.
Proof. repeat split. Qed.

(** The service's [likePost] on a control that a click does not change: the
    read after the click sees it unpressed and the call fails. *)
Example likePost_not_registered :
  fst (likePost site_driver post_url (fresh (a_post false false)))
  = Throw "Failed to like LinkedIn post: Like action did not register. The post might not be likeable.".
Proof. reflexivity. Qed.

(** C6, on the code.  The node's own like branch, run on a post whose like
    control is already pressed, reports success after clicking the control:
    it never reads the pressed state, sends one click, and leaves the post
    unliked. *)
Theorem handlePostOperations_like_clicks_pressed_control :
  let run := handlePostOperations site_driver (like_host some_credentials 1 false)
               "like" 0 (fresh (a_post true true)) in
  fst run = Ok liked_result
  /\ count_page is_click (plog (snd run)) = 1%nat
  /\ count_page is_probe (plog (snd run)) = 0%nat
  /\ toggles (st (snd run)) = 1%nat
  /\ pressed (st (snd run)) = false.
Proof. repeat split. Qed.

(** Through [execute], two likes of one post in a row: success both times,
    two changes of the like state, and the post unliked at the end. *)
Example execute_two_likes :
  let run := execute site_driver no_handler no_handler 1
               (like_host some_credentials 2 false) (visit signed_out) in
  fst run = Ok [[ {| json := JResult liked_result; pairedItem := 0 |};
                  {| json := JResult liked_result; pairedItem := 1 |} ]]
  /\ toggles (st (pw (snd run))) = 2%nat
  /\ pressed (st (pw (snd run))) = false.
Proof. repeat split. Qed.

(** C7, on the code.  The node's own like branch, run on a post whose like
    control a click does not change, reports success although the control is
    not pressed afterwards: no read of the pressed state follows the click. *)
Theorem handlePostOperations_like_unverified :
  let run := handlePostOperations site_driver (like_host some_credentials 1 false)
               "like" 0 (fresh (a_post false false)) in
  fst run = Ok liked_result
  /\ success liked_result = true
  /\ count_page is_probe (plog (snd run)) = 0%nat
  /\ pressed (st (snd run)) = false.
Proof. repeat split. Qed.

(** ** The node file: the browser session of [execute] *)

Lemma launch_flag (credentials : Credentials) :
  js_or (flag (headless credentials)) (VBool true) = VBool true.
Proof. destruct (headless credentials) as [[|] |]; reflexivity. Qed.

Section Session.

Context {St : Type} (drv : Driver St).
Variable handleProfileOperations : Ctx -> string -> nat -> M (PWorld St) Val.
Variable handleFeedOperations : Ctx -> string -> nat -> M (PWorld St) Val.

Lemma quiet_ret {A} (a : A) : @quiet St A (ret a).
Proof. intros bw. reflexivity. Qed.

Lemma quiet_throw {A} (e : string) : @quiet St A (throw e).
Proof. intros bw. reflexivity. Qed.

Lemma quiet_host {A} (r : Res A) : @quiet St A (host r).
Proof. intros bw. reflexivity. Qed.

Lemma quiet_on_page {A} (m : M (PWorld St) A) : quiet (on_page m).
Proof. intros bw. unfold on_page. now destruct (m (pw bw)). Qed.

Lemma quiet_bind {A B} (m : M (BWorld St) A) (k : A -> M (BWorld St) B) :
  quiet m -> (forall a, quiet (k a)) -> quiet (bind m k).
Proof.
  intros Hm Hk bw. unfold bind. specialize (Hm bw).
  destruct (m bw) as [[a | e |] bw1]; simpl in *; auto.
  rewrite <- Hm. apply Hk.
Qed.

Lemma quiet_try_catch {A} (m : M (BWorld St) A) (h : string -> M (BWorld St) A) :
  quiet m -> (forall e, quiet (h e)) -> quiet (try_catch m h).
Proof.
  intros Hm Hh bw. unfold try_catch. specialize (Hm bw).
  destruct (m bw) as [[a | e |] bw1]; simpl in *; auto.
  rewrite <- Hm. apply Hh.
Qed.

Lemma quiet_if {A} (c : bool) (m1 m2 : M (BWorld St) A) :
  quiet m1 -> quiet m2 -> quiet (if c then m1 else m2).
Proof. destruct c; auto. Qed.

Create HintDb quiet.
#[local] Hint Resolve quiet_ret quiet_throw quiet_host quiet_on_page quiet_bind
  quiet_try_catch quiet_if : quiet.

(** Processing an item, whether it succeeds, fails and is recorded, or fails
    and aborts the batch, leaves the browser alone. *)
Lemma quiet_execute_item (ctx : Ctx) (page : bool) (i : nat) (returnData : list Item) :
  quiet (execute_item drv handleProfileOperations handleFeedOperations ctx page i returnData).
Proof. unfold execute_item. auto 20 with quiet. Qed.

Lemma quiet_execute_items (ctx : Ctx) (page : bool) (n : nat) :
  forall i returnData,
    quiet (execute_items drv handleProfileOperations handleFeedOperations
             ctx page n i returnData).
Proof.
  induction n as [| n IH]; intros i returnData; simpl.
  - apply quiet_ret.
  - apply quiet_bind; [apply quiet_execute_item | intros; apply IH].
Qed.

Lemma bcall_cases (c : BrowserCmd) (bw : BWorld St) :
  (exists v bw', bcall drv c bw = (Ok v, bw') /\ blog bw' = (c, true) :: blog bw
                 /\ exists s', drv_browser drv c (st (pw bw)) = (Done v, s'))
  \/ (exists m bw', bcall drv c bw = (Throw m, bw') /\ blog bw' = (c, false) :: blog bw
                    /\ exists s', drv_browser drv c (st (pw bw)) = (Fail m, s')).
Proof.
  unfold bcall. destruct (drv_browser drv c (st (pw bw))) as [[v | m] s']; simpl.
  - left. eexists _, _. repeat split. now exists s'.
  - right. eexists _, _. repeat split. now exists s'.
Qed.

(** The handler of [execute]: close, then rethrow. *)
Lemma execute_handler (error : string) (bw : BWorld St) :
  exists c e bw',
    bind (bcall drv Close) (fun _ => @throw _ (list (list Item)) error) bw = (Throw e, bw')
    /\ blog bw' = (Close, c) :: blog bw
    /\ (c = false -> close_rejects drv).
Proof.
  unfold bind.
  destruct (bcall_cases Close bw)
    as [(v & bw' & -> & Hlog & _) | (m & bw' & -> & Hlog & s' & Hs)].
  - exists true, error, bw'. repeat split; auto. discriminate.
  - exists false, m, bw'. repeat split; auto. intros _. now exists (st (pw bw)), m, s'.
Qed.

Lemma execute_session_log (fuel : nat) (ctx : Ctx) (bw bw' : BWorld St)
    (r : Outcome (list (list Item))) :
  execute drv handleProfileOperations handleFeedOperations fuel ctx bw = (r, bw') ->
  exists sent, blog bw' = (sent ++ blog bw)%list /\ session_log (no_session ctx) (close_rejects drv) r sent.
Proof.
  unfold execute. intros E.
  destruct (authentication ctx =? "browser") eqn:Hauth.
  2:{ exists []. split; [|constructor; now left].
      change bw' with (snd (r, bw')). rewrite <- E.
      apply quiet_bind; [apply quiet_execute_items | intros; apply quiet_ret]. }
  unfold bind at 1, host in E. unfold no_session.
  destruct (getCredentials ctx) as [[credentials |] | m];
    try (inversion E; subst; exists []; split;
         [reflexivity | constructor; right; intros c; discriminate]).
  rewrite launch_flag in E. unfold bind at 1 in E.
  destruct (bcall_cases (Launch (VBool true)) bw)
    as [(v & bw1 & R1 & L1 & _) | (m & bw1 & R1 & L1 & _)]; rewrite R1 in E.
  2:{ inversion E; subst.
      exists [(Launch (VBool true), false)]. split; [exact L1 | constructor]. }
  unfold try_catch in E.
  (* the new page *)
  unfold bind at 1 in E.
  destruct (bcall_cases NewPage bw1)
    as [(v2 & bw2 & R2 & L2 & _) | (m & bw2 & R2 & L2 & _)]; rewrite R2 in E.
  2:{ destruct (execute_handler m bw2) as (c & e & bw3 & R3 & L3 & F3).
      rewrite R3 in E. inversion E; subst.
      exists [(Close, c); (NewPage, false); (Launch (VBool true), true)].
      simpl. rewrite L3, L2, L1. split; [reflexivity|].
      constructor. intros Hc. split; [auto | now exists e]. }
  (* the page code: timeouts, login, the items *)
  match type of E with
  | context [bind (on_page ?a) (fun _ => bind (on_page ?b) (fun _ =>
               bind (on_page ?l) (fun _ => bind ?items ?k)))] =>
      set (K := k) in E;
      set (P := bind (on_page a) (fun _ => bind (on_page b) (fun _ =>
                  bind (on_page l) (fun _ => items))));
      assert (HP : quiet P)
        by (subst P; repeat (apply quiet_bind; [auto with quiet | intros]);
            apply quiet_execute_items);
      assert (Hassoc : forall w,
                bind (on_page a) (fun _ => bind (on_page b) (fun _ =>
                  bind (on_page l) (fun _ => bind items K))) w
                = bind P K w)
  end.
  { intros w. subst P. unfold bind.
    repeat match goal with
           | |- context [match ?m ?x with _ => _ end] =>
               lazymatch m with
               | on_page _ => destruct (m x) as [[? | ? |] ?]; try reflexivity
               | execute_items _ _ _ _ _ _ _ _ => destruct (m x) as [[? | ? |] ?]; try reflexivity
               end
           end. }
  rewrite Hassoc in E. clear Hassoc. unfold bind at 1 in E.
  pose proof (HP bw2) as L3.
  destruct (P bw2) as [[returnData | e |] bw3]; simpl in L3.
  - (* the batch completed *)
    subst K. cbv beta in E. unfold bind at 1 in E.
    destruct (bcall_cases Close bw3)
      as [(v4 & bw4 & R4 & L4 & _) | (m & bw4 & R4 & L4 & s4 & F4)]; rewrite R4 in E.
    + inversion E; subst.
      exists [(Close, true); (NewPage, true); (Launch (VBool true), true)].
      simpl. rewrite L4, L3, L2, L1. split; [reflexivity|].
      constructor. discriminate.
    + destruct (execute_handler m bw4) as (c & e & bw5 & R5 & L5 & _).
      rewrite R5 in E. inversion E; subst.
      exists [(Close, c); (Close, false); (NewPage, true); (Launch (VBool true), true)].
      simpl. rewrite L5, L4, L3, L2, L1. split; [reflexivity|].
      constructor. now exists (st (pw bw3)), m, s4.
  - (* an error aborted the batch *)
    destruct (execute_handler e bw3) as (c & e' & bw4 & R4 & L4 & F4).
    rewrite R4 in E. inversion E; subst.
    exists [(Close, c); (NewPage, true); (Launch (VBool true), true)].
    simpl. rewrite L4, L3, L2, L1. split; [reflexivity|].
    constructor. intros Hc. split; [auto | now exists e'].
  - inversion E; subst.
    exists [(NewPage, true); (Launch (VBool true), true)].
    simpl. rewrite L3, L2, L1. split; [reflexivity | constructor].
Qed.

(** Provided [browser.close()] itself does not reject, every run of
    [execute] that ends, by returning the batch, by returning it with per-item
    failures recorded under continue-on-failure, or by propagating an error,
    has sent exactly one close for the browser it launched, and none when it
    launched none: the closes it sent are as many as its successful launches,
    and these are at most one. *)
Theorem execute_closes_browser_once (fuel : nat) (ctx : Ctx) (bw : BWorld St) :
  (forall s, exists v s', drv_browser drv Close s = (Done v, s')) ->
  fst (execute drv handleProfileOperations handleFeedOperations fuel ctx bw) <> Diverge ->
  exists sent,
    blog (snd (execute drv handleProfileOperations handleFeedOperations fuel ctx bw))
    = (sent ++ blog bw)%list
    /\ closes sent = launched sent
    /\ (launched sent <= 1)%nat.
Proof.
  intros Hclose Hends.
  assert (Hno : ~ close_rejects drv).
  { intros (s & m & s' & Hs). destruct (Hclose s) as (v & s'' & Hv). congruence. }
  destruct (execute drv handleProfileOperations handleFeedOperations fuel ctx bw)
    as [r bw'] eqn:E.
  destruct (execute_session_log fuel ctx bw bw' r E) as (sent & Hlog & Hshape).
  exists sent. split; [exact Hlog|]. simpl in Hends.
  destruct Hshape as [r _ | r | r c n Hc | r c Hc | ].
  - split; [reflexivity | cbv; lia].
  - split; [reflexivity | cbv; lia].
  - split; [reflexivity | cbv; lia].
  - contradiction.
  - contradiction.
Qed.

(** C9.  Whatever the credentials say, [headless: false] included, every
    launch [execute] sends carries [headless = true]; and with browser
    authentication and credentials at hand it does send one. *)
Theorem execute_launches_headless (fuel : nat) (ctx : Ctx) (bw : BWorld St) :
  exists sent,
    blog (snd (execute drv handleProfileOperations handleFeedOperations fuel ctx bw))
    = (sent ++ blog bw)%list
    /\ forallb headless_launch sent = true
    /\ (authentication ctx = "browser" ->
        forall credentials, getCredentials ctx = Done (Some credentials) ->
        exists ok, In (Launch (VBool true), ok) sent).
Proof.
  destruct (execute drv handleProfileOperations handleFeedOperations fuel ctx bw)
    as [r bw'] eqn:E.
  destruct (execute_session_log fuel ctx bw bw' r E) as (sent & Hlog & Hshape).
  exists sent. split; [exact Hlog|].
  destruct Hshape as [r [Hauth | Hcred] | r | r c n Hc | r c Hc | ];
    (split; [reflexivity|]); intros Hbrowser credentials Hsome.
  - rewrite Hbrowser in Hauth. discriminate.
  - elim (Hcred credentials Hsome).
  - exists false. simpl. auto.
  - exists true. simpl. auto.
  - exists true. simpl. auto.
  - exists true. simpl. auto.
Qed.

End Session.

Lemma execute_closes_browser_once_witness :
  exists sent,
    blog (snd (execute site_driver no_handler no_handler 1
                 (like_host some_credentials 2 true) (visit signed_out)))
    = (sent ++ blog (visit signed_out))%list
    /\ closes sent = launched sent
    /\ (launched sent <= 1)%nat.
Proof.
  apply (execute_closes_browser_once site_driver no_handler no_handler 1
           (like_host some_credentials 2 true) (visit signed_out)).
  - intros s. exists VUndefined, s. reflexivity.
  - vm_compute. discriminate.
Defined.

(** A batch of two likes that completes: one launch, one close. *)
Example execute_completed :
  blog (snd (execute site_driver no_handler no_handler 1
               (like_host some_credentials 2 false) (visit signed_out)))
  = [(Close, true); (NewPage, true); (Launch (VBool true), true)].
Proof. reflexivity. Qed.

(** Two items that fail, recorded under continue-on-failure: the batch
    returns both error records, after one close. *)
Example execute_recorded_failures :
  fst (execute site_driver no_handler no_handler 1
         (post_host some_credentials "share" 2 true) (visit signed_out))
  = Ok [[ {| json := JError "Post operation 'share' failed: Share operation not implemented yet";
             pairedItem := 0 |};
          {| json := JError "Post operation 'share' failed: Share operation not implemented yet";
             pairedItem := 1 |} ]]
  /\ blog (snd (execute site_driver no_handler no_handler 1
                  (post_host some_credentials "share" 2 true) (visit signed_out)))
     = [(Close, true); (NewPage, true); (Launch (VBool true), true)].
Proof. split; reflexivity. Qed.

(** The first failing item aborts the batch when continue-on-failure is off;
    the error propagates after one close. *)
Example execute_item_aborts :
  fst (execute site_driver no_handler no_handler 1
         (post_host some_credentials "share" 2 false) (visit signed_out))
  = Throw "Post operation 'share' failed: Share operation not implemented yet"
  /\ blog (snd (execute site_driver no_handler no_handler 1
                  (post_host some_credentials "share" 2 false) (visit signed_out)))
     = [(Close, true); (NewPage, true); (Launch (VBool true), true)].
Proof. split; reflexivity. Qed.

(** The same with [headless: false] in the credentials. *)
Example execute_headless_false :
  headless credentials_visible = Some false
  /\ blog (snd (execute site_driver no_handler no_handler 1
                  (like_host credentials_visible 2 false) (visit signed_out)))
     = [(Close, true); (NewPage, true); (Launch (VBool true), true)].
Proof. split; reflexivity. Qed.

(** A login that fails aborts the batch: the error propagates after one
    close. *)
Example execute_aborted :
  (exists e, fst (execute static_driver no_handler no_handler 1
                    (like_host some_credentials 2 false) (visit []))
             = Throw e)
  /\ closes (blog (snd (execute static_driver no_handler no_handler 1
                          (like_host some_credentials 2 false) (visit []))))
     = 1%nat.
Proof. split; [eexists|]; reflexivity. Qed.

(** C8, on the code.  One item, a like that succeeds, in a browser whose
    [close()] rejects: the batch is complete, the close that ends it rejects
    inside the [try], and the handler closes again.  [execute] has launched
    one browser and sent two closes, and what it propagates is the close's
    error. *)
Theorem execute_closes_twice_when_close_rejects :
  fst (execute unclosable_driver no_handler no_handler 1
         (like_host some_credentials 1 false) (visit signed_out))
  = Throw close_failed
  /\ blog (snd (execute unclosable_driver no_handler no_handler 1
                  (like_host some_credentials 1 false) (visit signed_out)))
     = [(Close, false); (Close, false); (NewPage, true); (Launch (VBool true), true)]
  /\ launched (blog (snd (execute unclosable_driver no_handler no_handler 1
                            (like_host some_credentials 1 false) (visit signed_out))))
     = 1%nat
  /\ closes (blog (snd (execute unclosable_driver no_handler no_handler 1
                          (like_host some_credentials 1 false) (visit signed_out))))
     = 2%nat
  /\ count_page is_click
       (plog (pw (snd (execute unclosable_driver no_handler no_handler 1
                         (like_host some_credentials 1 false) (visit signed_out)))))
     = 2%nat.
Proof. repeat split; reflexivity. Qed.

(** The same browser under an item that fails, continue-on-failure off: one
    close, which rejects; its error takes the place of the item's. *)
Example execute_abort_close_rejects :
  fst (execute unclosable_driver no_handler no_handler 1
         (post_host some_credentials "share" 1 false) (visit signed_out))
  = Throw close_failed
  /\ blog (snd (execute unclosable_driver no_handler no_handler 1
                  (post_host some_credentials "share" 1 false) (visit signed_out)))
     = [(Close, false); (NewPage, true); (Launch (VBool true), true)].
Proof. split; reflexivity. Qed.

(* ================================================================== *)
(** * Further properties of the sources *)

(** ** Substrings *)

Lemma includes_unfold (s sub : string) :
  includes s sub
  = if String.prefix sub s then true
    else match s with
         | EmptyString => false
         | String _ t => includes t sub
         end.
Proof. destruct s; reflexivity. Qed.

Lemma prefix_app (sub after : string) : String.prefix sub (sub ++ after) = true.
Proof.
  induction sub as [| c sub IH]; simpl.
  - now destruct after.
  - destruct (ascii_dec c c) as [_ | Hne]; [exact IH | congruence].
Qed.

Lemma prefix_split (sub s : string) :
  String.prefix sub s = true -> exists after, s = sub ++ after.
Proof.
  revert s. induction sub as [| c sub IH]; intros s H.
  - now exists s.
  - destruct s as [| c' s]; simpl in H; [discriminate|].
    destruct (ascii_dec c c') as [<- | _]; [|discriminate].
    destruct (IH s H) as [after ->]. now exists after.
Qed.

Lemma includes_contains (s sub : string) :
  includes s sub = true <-> contains s sub.
Proof.
  split.
  - induction s as [| c t IH]; rewrite includes_unfold.
    + destruct (String.prefix sub EmptyString) eqn:Hp; [|discriminate].
      intros _. destruct (prefix_split _ _ Hp) as [after Hafter].
      now exists EmptyString, after.
    + destruct (String.prefix sub (String c t)) eqn:Hp.
      * intros _. destruct (prefix_split _ _ Hp) as [after Hafter].
        now exists EmptyString, after.
      * intros H. destruct (IH H) as (before & after & ->).
        now exists (String c before), after.
  - intros (before & after & ->).
    induction before as [| c before IH].
    + rewrite includes_unfold. simpl. now rewrite prefix_app.
    + change (String c before ++ sub ++ after) with (String c (before ++ sub ++ after)).
      rewrite includes_unfold, IH. now destruct (String.prefix _ _).
Qed.

Lemma contains_nonempty (s sub : string) :
  contains s sub -> sub <> EmptyString -> s <> EmptyString.
Proof.
  intros (before & after & ->) Hsub Hs.
  destruct before; simpl in Hs; [|discriminate].
  destruct sub; simpl in Hs; [congruence | discriminate].
Qed.

Lemma validator_contains (url pattern : string) :
  pattern <> EmptyString ->
  (if url =? EmptyString then false else includes url pattern) = true
  <-> contains url pattern.
Proof.
  intros Hp. destruct (url =? EmptyString) eqn:Heq.
  - apply String.eqb_eq in Heq. split; [discriminate|]. intros H.
    elim (contains_nonempty _ _ H Hp). exact Heq.
  - apply includes_contains.
Qed.

(** X1.  Each of the three address validators accepts exactly the strings
    that contain its pattern somewhere: neither the scheme nor the host nor
    the position of the pattern is looked at. *)
Theorem validators_accept_any_container (url : string) :
  (isValidLinkedInPostUrl url = true
   <-> contains url "linkedin.com/feed/update/" \/ contains url "linkedin.com/posts/")
  /\ (isValidLinkedInProfileUrl url = true <-> contains url "linkedin.com/in/")
  /\ (isValidLinkedInCompanyUrl url = true <-> contains url "linkedin.com/company/").
Proof.
  repeat split.
  - unfold isValidLinkedInPostUrl. intros H.
    destruct (url =? EmptyString); [discriminate|].
    apply orb_true_iff in H. destruct H as [H | H];
      [left | right]; now apply includes_contains.
  - unfold isValidLinkedInPostUrl. intros H.
    destruct (url =? EmptyString) eqn:Heq.
    + apply String.eqb_eq in Heq.
      destruct H as [H | H]; elim (contains_nonempty _ _ H); auto; discriminate.
    + destruct H as [H | H]; apply includes_contains in H; rewrite H;
        auto using orb_true_r.
  - apply validator_contains. discriminate.
  - apply validator_contains. discriminate.
  - apply validator_contains. discriminate.
  - apply validator_contains. discriminate.
Qed.

Example isValidLinkedInPostUrl_other_host :
  isValidLinkedInPostUrl "https://elsewhere.test/?next=linkedin.com/posts/1" = true.
Proof. reflexivity. Qed.

(** ** Budgets of commands *)

Lemma spent_app (f : PageCmd -> bool) (l1 l2 : list (PageCmd * bool)) :
  spent f (l1 ++ l2) = (spent f l1 + spent f l2)%nat.
Proof. unfold spent, count_page. now rewrite filter_app, length_app. Qed.

Section Budget.

Context {St : Type} (drv : Driver St).

Lemma within_ret {A} (f : PageCmd -> bool) (a : A) : @within St A f 0 (ret a).
Proof. intros w. exists []. repeat split; [apply Nat.le_refl | discriminate]. Qed.

Lemma within_throw {A} (f : PageCmd -> bool) (e : string) : @within St A f 0 (throw e).
Proof. intros w. exists []. repeat split; [apply Nat.le_refl | discriminate]. Qed.

Lemma within_host {A} (f : PageCmd -> bool) (r : Res A) : @within St A f 0 (host r).
Proof.
  intros w. exists []. repeat split; [apply Nat.le_refl | destruct r; discriminate].
Qed.

Lemma within_page_url (f : PageCmd -> bool) : within f 0 (page_url drv).
Proof. intros w. exists []. repeat split; [apply Nat.le_refl | discriminate]. Qed.

Lemma within_date_now (f : PageCmd -> bool) : within f 0 (date_now drv).
Proof. intros w. exists []. repeat split; [apply Nat.le_refl | discriminate]. Qed.

Lemma within_call (f : PageCmd -> bool) (c : PageCmd) (b : bool) :
  f c = b -> within f (if b then 1 else 0) (call drv c).
Proof.
  intros Hb w. unfold call.
  destruct (drv_page drv c (st w)) as [r s'].
  exists [(c, resolved r)]. repeat split.
  - unfold spent, count_page. simpl. rewrite Hb. destruct b; simpl; lia.
  - destruct r; discriminate.
Qed.

Lemma within_wait (f : PageCmd -> bool) (ms : N) (b : bool) :
  f (WaitForTimeout ms) = b -> within f (if b then 1 else 0) (waitForTimeout drv ms).
Proof.
  intros Hb w. exists [(WaitForTimeout ms, true)]. repeat split.
  - unfold spent, count_page. simpl. rewrite Hb. destruct b; simpl; lia.
  - discriminate.
Qed.

Lemma within_bind {A B} (f : PageCmd -> bool) (n1 n2 : nat)
    (m : M (PWorld St) A) (k : A -> M (PWorld St) B) :
  within f n1 m -> (forall a, within f n2 (k a)) -> within f (n1 + n2) (bind m k).
Proof.
  intros Hm Hk w. unfold bind.
  destruct (Hm w) as (l1 & L1 & S1 & D1).
  destruct (m w) as [[a | e |] w1]; simpl in *.
  - destruct (Hk a w1) as (l2 & L2 & S2 & D2).
    exists (l2 ++ l1)%list. repeat split.
    + rewrite L2, L1. apply app_assoc.
    + rewrite spent_app. lia.
    + exact D2.
  - exists l1. repeat split; [exact L1 | lia | discriminate].
  - contradiction.
Qed.

Lemma within_try_catch {A} (f : PageCmd -> bool) (n1 n2 : nat)
    (m : M (PWorld St) A) (h : string -> M (PWorld St) A) :
  within f n1 m -> (forall e, within f n2 (h e)) -> within f (n1 + n2) (try_catch m h).
Proof.
  intros Hm Hh w. unfold try_catch.
  destruct (Hm w) as (l1 & L1 & S1 & D1).
  destruct (m w) as [[a | e |] w1]; simpl in *.
  - exists l1. repeat split; [exact L1 | lia | discriminate].
  - destruct (Hh e w1) as (l2 & L2 & S2 & D2).
    exists (l2 ++ l1)%list. repeat split.
    + rewrite L2, L1. apply app_assoc.
    + rewrite spent_app. lia.
    + exact D2.
  - contradiction.
Qed.

Lemma within_promise_all2 (f : PageCmd -> bool) (n1 n2 : nat) (a b : M (PWorld St) Val) :
  within f n1 a -> within f n2 b -> within f (n1 + n2) (promise_all2 a b).
Proof.
  intros Ha Hb w. unfold promise_all2.
  destruct (Ha w) as (l1 & L1 & S1 & D1).
  destruct (a w) as [[v | e |] w1]; simpl in *; try contradiction;
    destruct (Hb w1) as (l2 & L2 & S2 & D2);
    exists (l2 ++ l1)%list.
  - destruct (b w1) as [[v' | e' |] w2]; simpl in *; try contradiction;
      (repeat split;
       [rewrite L2, L1; apply app_assoc | rewrite spent_app; lia | discriminate]).
  - repeat split;
      [rewrite L2, L1; apply app_assoc | rewrite spent_app; lia | discriminate].
Qed.

Lemma within_weaken {A} (f : PageCmd -> bool) (n n' : nat) (m : M (PWorld St) A) :
  within f n m -> (n <= n')%nat -> within f n' m.
Proof.
  intros Hm Hle w. destruct (Hm w) as (l & L & S1 & D).
  exists l. repeat split; [exact L | lia | exact D].
Qed.

Lemma within_if {A} (f : PageCmd -> bool) (n1 n2 : nat) (c : bool)
    (m1 m2 : M (PWorld St) A) :
  within f n1 m1 -> within f n2 m2 -> within f (Nat.max n1 n2) (if c then m1 else m2).
Proof.
  intros H1 H2. destruct c; [apply (within_weaken f n1) | apply (within_weaken f n2)];
    auto; lia.
Qed.

Lemma resolves_ret {A} (a : A) : @resolves (PWorld St) A (ret a).
Proof. intros w. now exists a, w. Qed.

Lemma resolves_bind {A B} (m : M (PWorld St) A) (k : A -> M (PWorld St) B) :
  resolves m -> (forall a, resolves (k a)) -> resolves (bind m k).
Proof.
  intros Hm Hk w. destruct (Hm w) as (a & w1 & E).
  unfold bind. rewrite E. apply Hk.
Qed.

Lemma resolves_try_catch {A} (f : PageCmd -> bool) (n : nat)
    (m : M (PWorld St) A) (h : string -> M (PWorld St) A) :
  within f n m -> (forall e, resolves (h e)) -> resolves (try_catch m h).
Proof.
  intros Hm Hh w. unfold try_catch.
  destruct (Hm w) as (l & _ & _ & D).
  destruct (m w) as [[a | e |] w1]; simpl in *.
  - now exists a, w1.
  - apply Hh.
  - contradiction.
Qed.

End Budget.

Create HintDb within.

(** Follows the code of a function and adds up what its commands cost. *)
Ltac budget :=
  cbv beta zeta;
  lazymatch goal with
  | |- within _ _ (bind _ _) => eapply within_bind; [budget | intros; budget]
  | |- within _ _ (try_catch _ _) => eapply within_try_catch; [budget | intros; budget]
  | |- within _ _ (promise_all2 _ _) => eapply within_promise_all2; [budget | budget]
  | |- within _ _ (if _ then _ else _) => eapply within_if; [budget | budget]
  | |- within _ _ (ret _) => apply within_ret
  | |- within _ _ (throw _) => apply within_throw
  | |- within _ _ (host _) => apply within_host
  | |- within _ _ (page_url _) => apply within_page_url
  | |- within _ _ (date_now _) => apply within_date_now
  | |- within _ _ (call _ _) => eapply within_call; cbv; reflexivity
  | |- within _ _ (waitForTimeout _ _) => eapply within_wait; cbv; reflexivity
  | |- within _ _ (or_null _ _) => unfold or_null; budget
  | |- within _ _ (takeScreenshot _ _) => unfold takeScreenshot; budget
  | |- _ => solve [eauto with within]
  end.

Ltac budget_upto := eapply within_weaken; [budget | cbv; lia].

(** ** utils/browser.ts: screen shots and lookups *)

Section Utilities.

Context {St : Type} (drv : Driver St).

(** X2.  [takeScreenshot] never rejects: it reads the clock, sends the one
    capture command for the file named after the given name and that time,
    and returns the file name when the capture resolved, the empty string
    when it rejected. *)
Theorem takeScreenshot_never_rejects (name : string) (w : PWorld St) :
  let filename := "linkedin-" ++ name ++ "-" ++ decimal (drv_now drv (st w)) ++ ".png" in
  exists ok : bool,
    takeScreenshot drv name w
    = (Ok (if ok then filename else EmptyString),
       {| st := snd (drv_page drv (Screenshot filename) (st w));
          plog := (Screenshot filename, ok) :: plog w |}).
Proof.
  intros filename. unfold takeScreenshot, try_catch, bind, date_now. fold filename.
  destruct (call_cases drv (Screenshot filename) w)
    as [[v [-> _]] | [m [-> _]]]; [exists true | exists false]; reflexivity.
Qed.

(** At 2023-11-14T22:13:20Z on the clock. *)
Example takeScreenshot_file_name :
  decimal 0 = "0"
  /\ takeScreenshot static_driver "post-like-failed" blank
     = (Ok "linkedin-post-like-failed-1700000000000.png",
        {| st := [];
           plog := [(Screenshot "linkedin-post-like-failed-1700000000000.png", true)] |}).
Proof. split; reflexivity. Qed.

(** X3.  [waitForSelectorWithFallback] never raises, whatever the page does:
    it sends lookups and nothing else, at most one for each candidate, and
    what it returns is [null] or an element; when it returns an element, the
    lookup that resolved is the last command it sent. *)
Theorem waitForSelectorWithFallback_lookups (selectors : list string) (w : PWorld St) :
  exists v w' l,
    waitForSelectorWithFallback drv selectors w = (Ok v, w')
    /\ plog w' = (l ++ plog w)%list
    /\ (List.length l <= List.length selectors)%nat
    /\ forallb (fun e => is_lookup (fst e)) l = true
    /\ (v = VNull \/ (truthy v = true /\ exists c rest, l = (c, true) :: rest)).
Proof.
  revert w. induction selectors as [| sel rest IH]; intros w; simpl.
  - exists VNull, w, (@nil (PageCmd * bool)). repeat split; auto.
  - unfold bind at 1. unfold try_catch, bind at 1.
    destruct (call_cases drv (WaitForSelector sel false (Some Constants.ELEMENT)) w)
      as [[v [-> _]] | [m [-> _]]].
    + destruct (truthy v) eqn:Hv; simpl.
      * exists v. eexists.
        exists [(WaitForSelector sel false (Some Constants.ELEMENT), true)].
        split; [reflexivity|]. split; [reflexivity|]. split; [simpl; lia|].
        split; [reflexivity|].
        right. split; [exact Hv|]. eexists _, _. reflexivity.
      * match goal with
        | |- context [waitForSelectorWithFallback drv rest ?w0] =>
            destruct (IH w0) as (v' & w' & l & -> & L & Hlen & Hall & Hv')
        end.
        exists v', w', (l ++ [(WaitForSelector sel false (Some Constants.ELEMENT), true)])%list.
        split; [reflexivity|]. split; [|split; [|split]].
        -- rewrite L. simpl. now rewrite <- app_assoc.
        -- rewrite length_app. simpl. lia.
        -- rewrite forallb_app, Hall. reflexivity.
        -- destruct Hv' as [-> | [Ht (c & r & ->)]]; [now left | right].
           split; [exact Ht|]. eexists _, _. reflexivity.
    + simpl.
      match goal with
      | |- context [waitForSelectorWithFallback drv rest ?w0] =>
          destruct (IH w0) as (v' & w' & l & -> & L & Hlen & Hall & Hv')
      end.
      exists v', w', (l ++ [(WaitForSelector sel false (Some Constants.ELEMENT), false)])%list.
      split; [reflexivity|]. split; [|split; [|split]].
      * rewrite L. simpl. now rewrite <- app_assoc.
      * rewrite length_app. simpl. lia.
      * rewrite forallb_app, Hall. reflexivity.
      * destruct Hv' as [-> | [Ht (c & r & ->)]]; [now left | right].
        split; [exact Ht|]. eexists _, _. reflexivity.
Qed.

End Utilities.

(** ** services/postService.ts: what the operations send *)

Lemma spent_failed_attempts (f : PageCmd -> bool) (url : string) (k : nat) :
  f (Goto url networkidle2 (Some Constants.NAVIGATION)) = false ->
  f (WaitForTimeout 1000) = false ->
  spent f (failed_attempts url k) = 0%nat.
Proof.
  intros Hg Hw. induction k as [| k IH]; [reflexivity|].
  unfold spent, count_page in *. simpl. now rewrite Hg, Hw.
Qed.

Lemma spent_attempts_log (f : PageCmd -> bool) (url : string) (k : nat) (b : bool) :
  f (Goto url networkidle2 (Some Constants.NAVIGATION)) = false ->
  f (WaitForTimeout 1000) = false ->
  spent f (attempts_log url k b) = 0%nat.
Proof.
  intros Hg Hw. destruct k as [| k]; [reflexivity|].
  pose proof (spent_failed_attempts f url k Hg Hw) as H.
  unfold spent, count_page, attempts_log in *. simpl. now rewrite Hg.
Qed.

Section PostBudget.

Context {St : Type} (drv : Driver St).

Lemma within_navigateWithRetry (f : PageCmd -> bool) (url : string) (maxRetries : Z) :
  f (Goto url networkidle2 (Some Constants.NAVIGATION)) = false ->
  f (WaitForTimeout 1000) = false ->
  within f 0 (navigateWithRetry drv url maxRetries).
Proof.
  intros Hg Hw w. unfold navigateWithRetry.
  destruct (navigate_loop_spec drv url maxRetries (S (Z.to_nat maxRetries)) 0 w)
    as (k & b & w' & Hrun & Hlog & _); [rewrite Z.sub_0_r; lia|].
  rewrite Hrun. exists (attempts_log url k b). repeat split.
  - exact Hlog.
  - now rewrite spent_attempts_log.
  - discriminate.
Qed.

Lemma within_waitForSelectorWithFallback (f : PageCmd -> bool) (selectors : list string) :
  (forall sel, f (WaitForSelector sel false (Some Constants.ELEMENT)) = false) ->
  within f 0 (waitForSelectorWithFallback drv selectors).
Proof.
  intros Hf. induction selectors as [| sel rest IH]; simpl.
  - apply within_ret.
  - apply (within_bind f 0 0).
    + apply (within_try_catch f 0 0); [|intros; apply within_ret].
      apply (within_bind f 0 0).
      * apply (within_call drv f _ false). apply Hf.
      * intros element. destruct (truthy element); apply within_ret.
    + intros [element |]; [apply within_ret | exact IH].
Qed.

End PostBudget.

#[export] Hint Extern 1 (within _ _ (navigateWithRetry _ _ _)) =>
  apply within_navigateWithRetry; reflexivity : within.
#[export] Hint Extern 1 (within _ _ (waitForSelectorWithFallback _ _)) =>
  apply within_waitForSelectorWithFallback; reflexivity : within.

Section PostService.

Context {St : Type} (drv : Driver St).


(** X5.  Whatever the page does, the service's [likePost] sends at most one
    click and types nothing. *)
Theorem likePost_clicks_at_most_once (postUrl : string) :
  within is_click 1 (likePost drv postUrl)
  /\ within is_typing 0 (likePost drv postUrl).
Proof.
  split; unfold likePost, open_post; budget_upto.
Qed.

(** X6.  [getPostInfo] only reads: whatever the page does, it never clicks
    and never types. *)
Theorem getPostInfo_is_read_only (postUrl : string) :
  within is_input 0 (getPostInfo drv postUrl).
Proof. unfold getPostInfo, open_post. budget_upto. Qed.

(** X7.  With a share text that is empty or white space only, [sharePost]
    types nothing, whatever the page does; it sends at most two clicks, the
    one that opens the dialog and the one that submits. *)
Theorem sharePost_blank_text_never_types (postUrl shareText : string) :
  has_non_space shareText = false ->
  within is_typing 0 (sharePost drv postUrl shareText)
  /\ within is_click 2 (sharePost drv postUrl shareText).
Proof.
  intros Hblank.
  split; unfold sharePost, open_post; rewrite Hblank, andb_false_r; budget_upto.
Qed.

Lemma call_Fail (c : PageCmd) (w : PWorld St) (m : string) (s' : St) :
  drv_page drv c (st w) = (Fail m, s') ->
  call drv c w = (Throw m, {| st := s'; plog := (c, false) :: plog w |}).
Proof. unfold call. now intros ->. Qed.

(** Three loads that all reject. *)
Lemma navigateWithRetry_three_failures (url : string) (w : PWorld St) :
  (forall s, exists m s',
     drv_page drv (Goto url networkidle2 (Some Constants.NAVIGATION)) s = (Fail m, s')) ->
  exists w',
    navigateWithRetry drv url 3 w = (Ok false, w')
    /\ plog w' = (attempts_log url 3 false ++ plog w)%list.
Proof.
  intros Hfail. unfold navigateWithRetry.
  change (S (Z.to_nat 3)) with 4%nat.
  cbn [navigate_loop]. cbn [Z.ltb Z.compare Pos.compare Pos.compare_cont Z.add Z.geb].
  unfold try_catch at 1. unfold bind at 1.
  destruct (Hfail (st w)) as (m1 & s1 & H1). rewrite (call_Fail _ _ _ _ H1).
  cbv beta iota zeta. cbn [Z.add Z.geb Z.ltb Z.compare Pos.add Pos.succ Pos.compare
                           Pos.compare_cont].
  unfold bind at 1, waitForTimeout at 1.
  unfold try_catch at 1. unfold bind at 1.
  match goal with
  | |- context [call drv _ ?w0] =>
      destruct (Hfail (st w0)) as (m2 & s2 & H2); rewrite (call_Fail _ w0 _ _ H2)
  end.
  cbv beta iota zeta. cbn [Z.add Z.geb Z.ltb Z.compare Pos.add Pos.succ Pos.compare
                           Pos.compare_cont].
  unfold bind at 1, waitForTimeout at 1.
  unfold try_catch at 1. unfold bind at 1.
  match goal with
  | |- context [call drv _ ?w0] =>
      destruct (Hfail (st w0)) as (m3 & s3 & H3); rewrite (call_Fail _ w0 _ _ H3)
  end.
  cbv beta iota zeta. cbn [Z.add Z.geb Z.ltb Z.compare Pos.add Pos.succ Pos.compare
                           Pos.compare_cont].
  eexists. split; reflexivity.
Qed.

(** X8.  When every load of a valid post address rejects, [likePost],
    [commentOnPost] and [sharePost] give up after the three loads of
    [navigateWithRetry], with its two delays in between and nothing else sent:
    no lookup, no click; the error is the navigation failure under the
    operation's prefix. *)
Theorem post_operations_give_up_after_three_loads
    (postUrl comment shareText : string) (w : PWorld St) :
  isValidLinkedInPostUrl postUrl = true ->
  (forall s, exists m s',
     drv_page drv (Goto postUrl networkidle2 (Some Constants.NAVIGATION)) s = (Fail m, s')) ->
  exists w',
    plog w' = (attempts_log postUrl 3 false ++ plog w)%list
    /\ likePost drv postUrl w
       = (Throw ("Failed to like LinkedIn post: " ++ navigation_failed), w')
    /\ commentOnPost drv postUrl comment w
       = (Throw ("Failed to comment on LinkedIn post: " ++ navigation_failed), w')
    /\ sharePost drv postUrl shareText w
       = (Throw ("Failed to share LinkedIn post: " ++ navigation_failed), w').
Proof.
  intros Hvalid Hfail.
  destruct (navigateWithRetry_three_failures postUrl w Hfail) as (w' & Hnav & Hlog).
  assert (Hopen : open_post drv postUrl w = (Throw navigation_failed, w')).
  { unfold open_post. rewrite Hvalid. cbn [negb].
    erewrite bind_Ok; [|exact Hnav]. reflexivity. }
  exists w'. split; [exact Hlog|].
  repeat split.
  - unfold likePost.
    rewrite (try_catch_Throw _ _ w navigation_failed w'); [reflexivity|].
    apply bind_Throw, Hopen.
  - unfold commentOnPost.
    rewrite (try_catch_Throw _ _ w navigation_failed w'); [reflexivity|].
    apply bind_Throw, Hopen.
  - unfold sharePost.
    rewrite (try_catch_Throw _ _ w navigation_failed w'); [reflexivity|].
    apply bind_Throw, Hopen.
Qed.

End PostService.


Lemma sharePost_blank_text_never_types_witness :
  within is_typing 0 (sharePost site_driver post_url "   ")
  /\ within is_click 2 (sharePost site_driver post_url "   ").
Proof.
  apply (sharePost_blank_text_never_types site_driver post_url "   ").
  reflexivity.
Defined.

Lemma post_operations_give_up_after_three_loads_witness :
  exists w',
    plog w' = (attempts_log post_url 3 false ++ plog (fresh tt))%list
    /\ likePost dead_driver post_url (fresh tt)
       = (Throw ("Failed to like LinkedIn post: " ++ navigation_failed), w')
    /\ commentOnPost dead_driver post_url "hello" (fresh tt)
       = (Throw ("Failed to comment on LinkedIn post: " ++ navigation_failed), w')
    /\ sharePost dead_driver post_url "hello" (fresh tt)
       = (Throw ("Failed to share LinkedIn post: " ++ navigation_failed), w').
Proof.
  apply (post_operations_give_up_after_three_loads dead_driver post_url "hello" "hello"
           (fresh tt)).
  - reflexivity.
  - intros s. eexists _, _. reflexivity.
Defined.

Section Comment.

Context {St : Type} (drv : Driver St).

Lemma waitForTimeout_inv (ms : N) (w w' : PWorld St) (u : unit) :
  waitForTimeout drv ms w = (Ok u, w') ->
  plog w' = (WaitForTimeout ms, true) :: plog w.
Proof. unfold waitForTimeout. intros H. inversion H. reflexivity. Qed.

Lemma waitForSelectorWithFallback_log (selectors : list string) (w : PWorld St) :
  exists l, plog (snd (waitForSelectorWithFallback drv selectors w)) = (l ++ plog w)%list.
Proof.
  destruct (within_waitForSelectorWithFallback drv (fun _ => false) selectors
              (fun _ => eq_refl) w) as (l & Hl & _).
  now exists l.
Qed.


End Comment.


(** ** services/profileService.ts *)

Section Inversion.

Context {St : Type} (drv : Driver St).

Lemma bind_Throw_inv {A B} (m : M (PWorld St) A) (k : A -> M (PWorld St) B) w e w' :
  bind m k w = (Throw e, w') ->
  m w = (Throw e, w') \/ exists a w1, m w = (Ok a, w1) /\ k a w1 = (Throw e, w').
Proof.
  unfold bind. destruct (m w) as [[a | e0 |] w1]; try discriminate.
  - intros H. right. now exists a, w1.
  - intros H. left. inversion H; subst. reflexivity.
Qed.

Lemma rethrow_inv {A} (m : M (PWorld St) A) (prefix : string) w e w' :
  try_catch m (fun error => throw (prefix ++ error)) w = (Throw e, w') ->
  exists e0, m w = (Throw e0, w') /\ e = prefix ++ e0.
Proof.
  unfold try_catch, throw. destruct (m w) as [[a | e0 |] w1]; try discriminate.
  intros H. inversion H; subst. now exists e0.
Qed.

Lemma rethrow_Ok_inv {A} (m : M (PWorld St) A) (h : string -> string) w a w' :
  try_catch m (fun error => throw (h error)) w = (Ok a, w') -> m w = (Ok a, w').
Proof.
  unfold try_catch, throw. destruct (m w) as [[a0 | e0 |] w1]; try discriminate.
  intros H. exact H.
Qed.

Lemma or_null_cases (c : PageCmd) (w : PWorld St) :
  (exists v, drv_page drv c (st w) = (Done v, st (snd (or_null drv c w)))
             /\ or_null drv c w
                = (Ok v, {| st := st (snd (or_null drv c w)); plog := (c, true) :: plog w |}))
  \/ (or_null drv c w
      = (Ok VNull, {| st := st (snd (or_null drv c w)); plog := (c, false) :: plog w |})).
Proof.
  unfold or_null, try_catch, call.
  destruct (drv_page drv c (st w)) as [[v | m] s']; simpl.
  - left. exists v. split; reflexivity.
  - right. reflexivity.
Qed.

Lemma or_null_Ok_inv (c : PageCmd) (w : PWorld St) v w' :
  or_null drv c w = (Ok v, w') ->
  truthy v = true ->
  drv_page drv c (st w) = (Done v, st w') /\ plog w' = (c, true) :: plog w.
Proof.
  unfold or_null, try_catch, call.
  destruct (drv_page drv c (st w)) as [[v0 | m] s']; simpl;
    intros H Hv; inversion H; subst; simpl; auto. discriminate.
Qed.

End Inversion.

Section ProfileService.

Context {St : Type} (drv : Driver St).

Lemma profile_pattern_absent (profileUrl : string) :
  isValidLinkedInProfileUrl profileUrl = false ->
  includes profileUrl "linkedin.com/in/" = false.
Proof.
  unfold isValidLinkedInProfileUrl. destruct (profileUrl =? EmptyString) eqn:Heq.
  - apply String.eqb_eq in Heq. rewrite Heq. reflexivity.
  - auto.
Qed.

(** X10.  An address that [isValidLinkedInProfileUrl] rejects is never
    loaded by [visitProfile]: the only command the page receives is the
    diagnostic screen shot of the error handler, and the call rejects, with
    the prefixed message when that screen shot resolved. *)
Theorem visitProfile_rejects_invalid_url (profileUrl : string) (w : PWorld St) :
  isValidLinkedInProfileUrl profileUrl = false ->
  exists (ok : bool) e w',
    visitProfile drv profileUrl w = (Throw e, w')
    /\ plog w' = (Screenshot "linkedin-profile-page-navigation.png", ok) :: plog w
    /\ (ok = true ->
        e = "Failed to visit LinkedIn profile: Invalid LinkedIn profile URL. Expected format: https://www.linkedin.com/in/username").
Proof.
  intros H. apply profile_pattern_absent in H.
  unfold visitProfile, try_catch. rewrite H. cbn [negb]. unfold throw at 1.
  unfold bind.
  destruct (call_cases drv (Screenshot "linkedin-profile-page-navigation.png") w)
    as [[v [-> _]] | [m [-> _]]].
  - exists true. eexists _, _. split; [reflexivity|]. split; [reflexivity|]. reflexivity.
  - exists false. eexists _, _. split; [reflexivity|]. split; [reflexivity|]. discriminate.
Qed.

(** X11.  [visitProfile] only looks: whatever the page does, it loads at
    most one address, takes at most two screen shots, and never clicks or
    types. *)
Theorem visitProfile_is_read_only (profileUrl : string) :
  within is_input 0 (visitProfile drv profileUrl)
  /\ within is_goto 1 (visitProfile drv profileUrl)
  /\ within is_screenshot 2 (visitProfile drv profileUrl).
Proof.
  unfold visitProfile. repeat split; budget_upto.
Qed.

(** X12.  Away from a profile page neither [sendConnectionRequest] nor
    [sendMessage] sends the page anything: each rejects at once, and the
    page is as it was. *)
Theorem profile_actions_need_a_profile_page (message : string) (w : PWorld St) :
  includes (drv_url drv (st w)) "linkedin.com/in/" = false ->
  sendConnectionRequest drv message w
  = (Throw "Failed to send connection request: Not on a LinkedIn profile page. Cannot send connection request.", w)
  /\ sendMessage drv message w
     = (Throw "Failed to send message: Not on a LinkedIn profile page. Cannot send message.", w).
Proof.
  intros H. unfold sendConnectionRequest, sendMessage, try_catch, bind, page_url.
  rewrite H. split; reflexivity.
Qed.

(** X13.  A connection request costs at most four clicks and one typing,
    and loads no address, whatever the page does and whatever the note. *)
Theorem sendConnectionRequest_budget (message : string) :
  within is_click 4 (sendConnectionRequest drv message)
  /\ within is_typing 1 (sendConnectionRequest drv message)
  /\ within is_goto 0 (sendConnectionRequest drv message).
Proof.
  unfold sendConnectionRequest, add_note. repeat split; budget_upto.
Qed.

(** X14.  With a note that is empty or white space only,
    [sendConnectionRequest] never looks for the note dialog: it types
    nothing and clicks at most twice, the connect and the send control. *)
Theorem sendConnectionRequest_blank_note (message : string) :
  has_non_space message = false ->
  within is_typing 0 (sendConnectionRequest drv message)
  /\ within is_click 2 (sendConnectionRequest drv message)
  /\ within (fun c => match c with Query _ => true | _ => false end) 0
       (sendConnectionRequest drv message).
Proof.
  intros H. unfold sendConnectionRequest, add_note. rewrite H, Bool.andb_false_r.
  repeat split; budget_upto.
Qed.


(** X16.  Once the message button was found and clicked, every failure of
    [sendMessage] is reported with its prefix twice: the handler of the
    dialog step and the handler of the function both add it. *)
Theorem sendMessage_failure_prefixed_twice
    (message : string) (w w' : PWorld St) (button u : Val) (s1 s2 : St) (e : string) :
  includes (drv_url drv (st w)) "linkedin.com/in/" = true ->
  drv_page drv (Query Shared.MESSAGE_BUTTON) (st w) = (Done button, s1) ->
  truthy button = true ->
  drv_page drv (Click button 1) s1 = (Done u, s2) ->
  sendMessage drv message w = (Throw e, w') ->
  exists reason, e = "Failed to send message: Failed to send message: " ++ reason.
Proof.
  intros Hurl Hbutton Tbutton Hclick E. unfold sendMessage in E.
  apply rethrow_inv in E. destruct E as (e0 & E & ->).
  unfold bind at 1, page_url at 1 in E. rewrite Hurl in E. cbn [negb] in E.
  unfold bind at 1, or_null, try_catch at 1, call at 1 in E.
  rewrite Hbutton in E. cbn [fst snd st plog] in E. rewrite Tbutton in E. cbn [negb] in E.
  unfold bind at 1, call at 1 in E. cbn [st plog] in E. rewrite Hclick in E.
  apply bind_Throw_inv in E. destruct E as [E | (a & w1 & _ & E)]; [|discriminate].
  apply rethrow_inv in E. destruct E as (reason & _ & ->).
  exists reason. reflexivity.
Qed.

End ProfileService.

Lemma visitProfile_rejects_invalid_url_witness :
  exists (ok : bool) e w',
    visitProfile profile_driver "https://www.linkedin.com/company/acme/" (fresh tt)
    = (Throw e, w')
    /\ plog w' = (Screenshot "linkedin-profile-page-navigation.png", ok) :: plog (fresh tt)
    /\ (ok = true ->
        e = "Failed to visit LinkedIn profile: Invalid LinkedIn profile URL. Expected format: https://www.linkedin.com/in/username").
Proof.
  apply (visitProfile_rejects_invalid_url profile_driver
           "https://www.linkedin.com/company/acme/" (fresh tt)).
  reflexivity.
Defined.

Lemma profile_actions_need_a_profile_page_witness :
  sendConnectionRequest site_driver "Hello" (fresh (a_post false true))
  = (Throw "Failed to send connection request: Not on a LinkedIn profile page. Cannot send connection request.",
     fresh (a_post false true))
  /\ sendMessage site_driver "Hello" (fresh (a_post false true))
     = (Throw "Failed to send message: Not on a LinkedIn profile page. Cannot send message.",
        fresh (a_post false true)).
Proof.
  apply (profile_actions_need_a_profile_page site_driver "Hello" (fresh (a_post false true))).
  reflexivity.
Defined.

Lemma sendConnectionRequest_blank_note_witness :
  within is_typing 0 (sendConnectionRequest profile_driver "  ")
  /\ within is_click 2 (sendConnectionRequest profile_driver "  ")
  /\ within (fun c => match c with Query _ => true | _ => false end) 0
       (sendConnectionRequest profile_driver "  ").
Proof.
  apply (sendConnectionRequest_blank_note profile_driver "  ").
  reflexivity.
Defined.


Lemma sendMessage_failure_prefixed_twice_witness :
  exists reason,
    "Failed to send message: Failed to send message: " ++ timeout_exceeded
    = "Failed to send message: Failed to send message: " ++ reason.
Proof.
  apply (sendMessage_failure_prefixed_twice no_dialog_driver "Hello" (fresh tt)
           (snd (sendMessage no_dialog_driver "Hello" (fresh tt)))
           (VElem 1) VUndefined tt tt);
    reflexivity.
Defined.

(** ** services/authenticationService.ts *)

Section AuthenticationService.

Context {St : Type} (drv : Driver St).

Lemma catch_const_Throw_inv {A} (m : M (PWorld St) A) (c : string) w e w' :
  try_catch m (fun error => throw c) w = (Throw e, w') -> e = c.
Proof.
  unfold try_catch, throw. destruct (m w) as [[a | e0 |] w1]; try discriminate.
  intros H. now inversion H.
Qed.

Lemma catch_false_true_inv (m : M (PWorld St) bool) w w' :
  try_catch m (fun error => ret false) w = (Ok true, w') -> m w = (Ok true, w').
Proof.
  unfold try_catch, ret. destruct (m w) as [[a | e0 |] w1]; try discriminate.
  intros H. exact H.
Qed.

(** X17.  [verifyLoggedIn] has two outcomes only.  It answers [true], and
    then the debug screen shot resolved, the address read right after it
    held neither [/login] nor [/checkpoint], and the query for the signed-in
    indicator, sent after the settle delay, was answered with an element; or
    it rejects with the one fixed message, whatever went wrong, a rejected
    screen shot included. *)
Theorem verifyLoggedIn_outcomes (w : PWorld St) :
  (exists w' v s indicator,
      verifyLoggedIn drv w = (Ok true, w')
      /\ drv_page drv (Screenshot "./linkedin-login-debug.png") (st w) = (Done v, s)
      /\ includes (drv_url drv s) "/login" = false
      /\ includes (drv_url drv s) "/checkpoint" = false
      /\ plog w'
         = (Query Shared.LOGGED_IN_INDICATOR, true)
             :: (WaitForTimeout Constants.ACTION, true)
             :: (Screenshot "./linkedin-login-debug.png", true)
             :: plog w
      /\ drv_page drv (Query Shared.LOGGED_IN_INDICATOR) (drv_tick drv Constants.ACTION s)
         = (Done indicator, st w')
      /\ truthy indicator = true)
  \/ (exists w', verifyLoggedIn drv w = (Throw Shared.LOGIN_FAILED, w')).
Proof.
  destruct (verifyLoggedIn drv w) as [[b | e |] w'] eqn:E.
  - left. unfold verifyLoggedIn in E.
    apply (rethrow_Ok_inv _ (fun _ => Shared.LOGIN_FAILED)) in E.
    apply bind_Ok_inv in E. destruct E as (v & w1 & Hshot & E).
    apply call_Ok_inv in Hshot. destruct Hshot as [Hshot L1].
    apply bind_Ok_inv in E. destruct E as (currentUrl & w2 & Hurl & E).
    unfold page_url in Hurl. inversion Hurl; subst. clear Hurl.
    destruct (includes (drv_url drv (st w2)) "/login"
              || includes (drv_url drv (st w2)) "/checkpoint") eqn:Hpage;
      [discriminate|].
    apply Bool.orb_false_elim in Hpage. destruct Hpage as [Hlogin Hcheckpoint].
    apply bind_Ok_inv in E. destruct E as (u3 & w3 & Hwait & E).
    assert (Hst : st w3 = drv_tick drv Constants.ACTION (st w2))
      by (unfold waitForTimeout in Hwait; inversion Hwait; reflexivity).
    apply waitForTimeout_inv in Hwait.
    apply bind_Ok_inv in E. destruct E as (loggedInIndicator & w4 & Hind & E).
    destruct (truthy loggedInIndicator) eqn:Tind; cbn [negb] in E; [|discriminate].
    apply (or_null_Ok_inv drv) in Hind; [|exact Tind]. destruct Hind as [Hq L4].
    assert (Hw : w4 = w') by (unfold ret in E; congruence).
    assert (Hb : b = true) by (unfold ret in E; congruence).
    subst w4 b. rewrite Hst in Hq.
    exists w', v, (st w2), loggedInIndicator.
    split; [reflexivity|]. split; [exact Hshot|].
    split; [exact Hlogin|]. split; [exact Hcheckpoint|].
    split; [rewrite L4, Hwait, L1; reflexivity|].
    split; [exact Hq | exact Tind].
  - right. exists w'. f_equal. f_equal.
    unfold verifyLoggedIn in E. now apply catch_const_Throw_inv in E.
  - exfalso.
    assert (H : within is_click 0 (verifyLoggedIn drv))
      by (unfold verifyLoggedIn; budget_upto).
    destruct (H w) as (_ & _ & _ & D). rewrite E in D. now apply D.
Qed.


(** X19.  [isLoggedIn] answers [true] only when the feed address loaded,
    the page did not land on a login or checkpoint address, and the
    signed-in indicator is on the page it ends on. *)
Theorem isLoggedIn_true_means_indicator (w w' : PWorld St) :
  isLoggedIn drv w = (Ok true, w') ->
  exists v s indicator,
    drv_page drv (Goto Shared.FEED networkidle2 (Some Constants.NAVIGATION)) (st w) = (Done v, s)
    /\ includes (drv_url drv s) "/login" = false
    /\ includes (drv_url drv s) "/checkpoint" = false
    /\ drv_page drv (Query Shared.LOGGED_IN_INDICATOR) s = (Done indicator, st w')
    /\ truthy indicator = true.
Proof.
  unfold isLoggedIn. intros E. apply catch_false_true_inv in E.
  apply bind_Ok_inv in E. destruct E as (v & w1 & Hgoto & E).
  apply call_Ok_inv in Hgoto. destruct Hgoto as [Hgoto _].
  apply bind_Ok_inv in E. destruct E as (currentUrl & w2 & Hurl & E).
  unfold page_url in Hurl. inversion Hurl; subst. clear Hurl.
  destruct (includes (drv_url drv (st w2)) "/login"
            || includes (drv_url drv (st w2)) "/checkpoint") eqn:Hpage;
    [discriminate|].
  apply Bool.orb_false_elim in Hpage. destruct Hpage as [Hlogin Hcheckpoint].
  apply bind_Ok_inv in E. destruct E as (indicator & w3 & Hind & E).
  assert (Tind : truthy indicator = true) by (unfold ret in E; congruence).
  assert (Hw : w3 = w') by (unfold ret in E; congruence). subst w3.
  apply (or_null_Ok_inv drv) in Hind; [|exact Tind]. destruct Hind as [Hind _].
  exists v, (st w2), indicator. repeat split; auto.
Qed.


End AuthenticationService.

Lemma isLoggedIn_true_means_indicator_witness :
  exists v s indicator,
    drv_page profile_driver (Goto Shared.FEED networkidle2 (Some Constants.NAVIGATION))
      (st (fresh tt)) = (Done v, s)
    /\ includes (drv_url profile_driver s) "/login" = false
    /\ includes (drv_url profile_driver s) "/checkpoint" = false
    /\ drv_page profile_driver (Query Shared.LOGGED_IN_INDICATOR) s
       = (Done indicator, st (snd (isLoggedIn profile_driver (fresh tt))))
    /\ truthy indicator = true.
Proof.
  apply (isLoggedIn_true_means_indicator profile_driver (fresh tt)). reflexivity.
Defined.


(** ** The node file: what a login that returns has seen *)

Section Ensures.

Context {St : Type} (drv : Driver St).

Lemma ensures_ret {A} (a : A) (w : PWorld St) (Q : A -> PWorld St -> Prop) :
  Q a w -> ensures (ret a) w Q.
Proof. intros H a' w' E. unfold ret in E. inversion E; subst. exact H. Qed.

Lemma ensures_throw {A} (e : string) (w : PWorld St) (Q : A -> PWorld St -> Prop) :
  ensures (throw e) w Q.
Proof. intros a w' E. discriminate. Qed.

Lemma ensures_diverge {A} (w : PWorld St) (Q : A -> PWorld St -> Prop) :
  ensures diverge w Q.
Proof. intros a w' E. discriminate. Qed.

Lemma ensures_bind {A B} (m : M (PWorld St) A) (k : A -> M (PWorld St) B)
    (w : PWorld St) (P : A -> PWorld St -> Prop) (Q : B -> PWorld St -> Prop) :
  ensures m w P ->
  (forall a w1, P a w1 -> ensures (k a) w1 Q) ->
  ensures (bind m k) w Q.
Proof.
  intros Hm Hk b w' E. apply bind_Ok_inv in E. destruct E as (a & w1 & E1 & E2).
  exact (Hk a w1 (Hm a w1 E1) b w' E2).
Qed.

Lemma ensures_then {A B} (m : M (PWorld St) A) (k : A -> M (PWorld St) B)
    (w : PWorld St) (Q : B -> PWorld St -> Prop) :
  (forall a w1, ensures (k a) w1 Q) -> ensures (bind m k) w Q.
Proof.
  intros Hk. apply (ensures_bind m k w (fun _ _ => True)); [easy|]. intros a w1 _. apply Hk.
Qed.

Lemma ensures_try_catch {A} (m : M (PWorld St) A) (h : string -> M (PWorld St) A)
    (w : PWorld St) (Q : A -> PWorld St -> Prop) :
  ensures m w Q -> (forall e w1, ensures (h e) w1 Q) -> ensures (try_catch m h) w Q.
Proof.
  intros Hm Hh a w' E. unfold try_catch in E.
  destruct (m w) as [[a0 | e0 |] w1] eqn:Em; try discriminate.
  - inversion E; subst. now apply Hm.
  - exact (Hh e0 w1 a w' E).
Qed.

Lemma ensures_page_url {B} (k : string -> M (PWorld St) B) (w : PWorld St)
    (Q : B -> PWorld St -> Prop) :
  ensures (k (url_of drv w)) w Q -> ensures (bind (page_url drv) k) w Q.
Proof. intros H b w' E. unfold bind, page_url in E. exact (H b w' E). Qed.

Lemma click_generic_ensures (buttons : list Handle) :
  forall w,
    ensures (click_generic drv buttons) w
      (fun r w' => r = true -> includes (url_of drv w') "checkpoint" = false).
Proof.
  induction buttons as [| b rest IH]; intros w; simpl.
  - apply ensures_ret. discriminate.
  - apply ensures_then. intros isDisabled w1.
    destruct (truthy isDisabled); [apply IH|].
    apply ensures_then. intros _ w2.
    apply ensures_then. intros _ w3.
    apply ensures_then. intros now w3'.
    apply ensures_then. intros _ w4.
    apply ensures_page_url.
    destruct (includes (url_of drv w4) "checkpoint") eqn:Hcp; simpl.
    + apply IH.
    + apply ensures_ret. intros _. exact Hcp.
Qed.

Lemma click_generic_selectors_ensures (selectors : list string) :
  forall w,
    ensures (click_generic_selectors drv selectors) w
      (fun r w' => r = true -> includes (url_of drv w') "checkpoint" = false).
Proof.
  induction selectors as [| sel rest IH]; intros w; simpl.
  - apply ensures_ret. discriminate.
  - apply (ensures_bind _ _ w
             (fun r w' => r = true -> includes (url_of drv w') "checkpoint" = false)).
    + apply ensures_try_catch.
      * apply ensures_then. intros buttons w1. apply click_generic_ensures.
      * intros e w1. apply ensures_ret. discriminate.
    + intros returned w1 Hreturned. destruct returned.
      * apply ensures_ret. intros _. now apply Hreturned.
      * apply IH.
Qed.

Lemma handleCheckpoint_call_ensures (self : M (PWorld St) unit) (ctx : Ctx) :
  (forall w, ensures self w (fun _ w' => past_checkpoint (url_of drv w') = true)) ->
  forall w,
    ensures (handleCheckpoint_call drv self ctx) w
      (fun _ w' => past_checkpoint (url_of drv w') = true).
Proof.
  intros Hself w. unfold handleCheckpoint_call.
  apply ensures_try_catch; [|intros e w1; apply ensures_throw].
  apply ensures_then. intros _ w1.
  apply ensures_page_url.
  apply ensures_then. intros pageContent w2.
  apply ensures_then. intros _ w3.
  apply ensures_then. intros textInputs w4.
  apply ensures_then. intros _ w5.
  apply ensures_then. intros buttonClicked w6.
  apply (ensures_bind _ _ w6
           (fun r w' => r = true -> includes (url_of drv w') "checkpoint" = false)).
  { destruct buttonClicked; cbn [negb].
    - apply ensures_ret. discriminate.
    - apply click_generic_selectors_ensures. }
  intros returned w7 Hreturned. destruct returned.
  { apply ensures_ret. apply past_checkpoint_left. now apply Hreturned. }
  apply ensures_then. intros verificationOptions w8.
  apply ensures_then. intros _ w9.
  apply ensures_then. intros _ w10.
  apply ensures_page_url.
  destruct (includes (url_of drv w10) "linkedin.com/feed"
            || includes (url_of drv w10) "linkedin.com.home") eqn:Hfeed.
  { apply ensures_ret. unfold past_checkpoint.
    rewrite <- !orb_assoc.
    rewrite (orb_assoc (includes _ "linkedin.com/feed")), Hfeed.
    now rewrite orb_true_r. }
  destruct (includes (url_of drv w10) "checkpoint"
            && negb (url_of drv w10 =? url_of drv w1)).
  { apply Hself. }
  apply ensures_then. intros _ w11.
  destruct (truthy (checkpoint_headless ctx)); [apply ensures_throw|].
  apply ensures_then. intros _ w12.
  apply ensures_page_url.
  destruct (includes (url_of drv w12) "linkedin.com/feed"
            || includes (url_of drv w12) "linkedin.com/home"
            || negb (includes (url_of drv w12) "checkpoint")) eqn:Hout.
  - apply ensures_ret. unfold past_checkpoint.
    destruct (includes (url_of drv w12) "checkpoint"),
             (includes (url_of drv w12) "linkedin.com/feed"),
             (includes (url_of drv w12) "linkedin.com.home"),
             (includes (url_of drv w12) "linkedin.com/home"); simpl in *; congruence.
  - apply ensures_throw.
Qed.

Lemma handleCheckpoint_ensures (ctx : Ctx) (fuel : nat) :
  forall w,
    ensures (handleCheckpoint drv fuel ctx) w
      (fun _ w' => past_checkpoint (url_of drv w') = true).
Proof.
  induction fuel as [| fuel IH]; intros w; simpl.
  - apply ensures_diverge.
  - apply handleCheckpoint_call_ensures. exact IH.
Qed.

(** X21.  On every page whatever, [handleCheckpoint] returns only on an
    address past the checkpoint: one that does not hold [checkpoint], or a
    feed or home address.  However deep the nested calls went, a call that
    returns never leaves the page on a checkpoint. *)
Theorem handleCheckpoint_returns_past_checkpoint
    (fuel : nat) (ctx : Ctx) (w w' : PWorld St) (u : unit) :
  handleCheckpoint drv fuel ctx w = (Ok u, w') ->
  past_checkpoint (drv_url drv (st w')) = true.
Proof. intros E. exact (handleCheckpoint_ensures ctx fuel w u w' E). Qed.

(** X22.  [loginToLinkedIn] returns in two ways only.  Either the address
    it ends on is one it takes for signed in itself: a feed address, a home
    address or the login-submit checkpoint.  Or the address after the
    challenge step was none of these but a checkpoint address, and
    [handleCheckpoint], started there, returned, with the page past the
    checkpoint.  From an address that is neither, no run returns. *)
Theorem loginToLinkedIn_returns_on_accepted_address
    (fuel : nat) (ctx : Ctx) (w w' : PWorld St) (u : unit) :
  loginToLinkedIn drv fuel ctx w = (Ok u, w') ->
  login_accepts (drv_url drv (st w')) = true
  \/ exists w0,
       login_accepts (drv_url drv (st w0)) = false
       /\ includes (drv_url drv (st w0)) "linkedin.com/checkpoint" = true
       /\ handleCheckpoint drv fuel ctx w0 = (Ok tt, w')
       /\ past_checkpoint (drv_url drv (st w')) = true.
Proof.
  revert u w'.
  change (ensures (loginToLinkedIn drv fuel ctx) w
            (fun _ w' =>
               login_accepts (url_of drv w') = true
               \/ exists w0,
                    login_accepts (url_of drv w0) = false
                    /\ includes (url_of drv w0) "linkedin.com/checkpoint" = true
                    /\ handleCheckpoint drv fuel ctx w0 = (Ok tt, w')
                    /\ past_checkpoint (url_of drv w') = true)).
  unfold loginToLinkedIn.
  apply ensures_try_catch.
  2:{ intros e w1. apply ensures_then. intros _ w2. apply ensures_throw. }
  apply ensures_then. intros credentials w1.
  destruct credentials as [credentials |]; [|apply ensures_throw].
  apply ensures_then. intros _ w2.
  apply ensures_then. intros usernameSelector w3.
  destruct (negb (truthy usernameSelector)); [apply ensures_throw|].
  apply ensures_then. intros _ w4.
  apply ensures_then. intros _ w5.
  apply ensures_then. intros _ w6.
  apply ensures_then. intros _ w7.
  apply ensures_then. intros _ w8.
  apply ensures_then. intros _ w9.
  apply ensures_page_url.
  fold (login_accepts (url_of drv w9)).
  destruct (login_accepts (url_of drv w9)) eqn:Hin.
  { apply ensures_ret. left. exact Hin. }
  destruct (includes (url_of drv w9) "linkedin.com/checkpoint") eqn:Hcp;
    [|apply ensures_throw].
  intros a w10 E. right. exists w9. destruct a.
  repeat split; auto.
  exact (handleCheckpoint_ensures ctx fuel w9 tt w10 E).
Qed.

End Ensures.

Lemma handleCheckpoint_returns_past_checkpoint_witness :
  past_checkpoint (drv_url cleared_checkpoint_driver (st (fresh false))) = false
  /\ past_checkpoint
       (drv_url cleared_checkpoint_driver
          (st (snd (handleCheckpoint cleared_checkpoint_driver 1
                      (like_host some_credentials 1 false) (fresh false))))) = true.
Proof.
  split; [reflexivity|].
  apply (handleCheckpoint_returns_past_checkpoint cleared_checkpoint_driver 1
           (like_host some_credentials 1 false) (fresh false) _ tt).
  reflexivity.
Defined.

(** The page of the witness: the call starts on the checkpoint address,
    finds the button by its text, clicks it once and ends on the feed. *)
Example handleCheckpoint_clears_one_page :
  drv_url cleared_checkpoint_driver false = checkpoint_a
  /\ fst (handleCheckpoint cleared_checkpoint_driver 1
            (like_host some_credentials 1 false) (fresh false)) = Ok tt
  /\ st (snd (handleCheckpoint cleared_checkpoint_driver 1
                (like_host some_credentials 1 false) (fresh false))) = true
  /\ count_page is_click
       (plog (snd (handleCheckpoint cleared_checkpoint_driver 1
                     (like_host some_credentials 1 false) (fresh false)))) = 1%nat.
Proof. repeat split; reflexivity. Qed.

Lemma loginToLinkedIn_returns_on_accepted_address_witness :
  login_accepts
    (drv_url cleared_checkpoint_driver
       (st (snd (loginToLinkedIn cleared_checkpoint_driver 1
                   (like_host some_credentials 1 false) (fresh false))))) = true
  \/ exists w0,
       login_accepts (drv_url cleared_checkpoint_driver (st w0)) = false
       /\ includes (drv_url cleared_checkpoint_driver (st w0)) "linkedin.com/checkpoint" = true
       /\ handleCheckpoint cleared_checkpoint_driver 1
            (like_host some_credentials 1 false) w0
          = (Ok tt, snd (loginToLinkedIn cleared_checkpoint_driver 1
                           (like_host some_credentials 1 false) (fresh false)))
       /\ past_checkpoint
            (drv_url cleared_checkpoint_driver
               (st (snd (loginToLinkedIn cleared_checkpoint_driver 1
                           (like_host some_credentials 1 false) (fresh false))))) = true.
Proof.
  apply (loginToLinkedIn_returns_on_accepted_address cleared_checkpoint_driver 1
           (like_host some_credentials 1 false) (fresh false) _ tt).
  reflexivity.
Defined.

(** Both ways of returning: through the checkpoint on the page above, and
    straight to the feed on the site that signs in on submit.  An address
    that is neither accepted nor a checkpoint ends the login in its
    failure. *)
Example loginToLinkedIn_three_ends :
  fst (loginToLinkedIn cleared_checkpoint_driver 1
         (like_host some_credentials 1 false) (fresh false)) = Ok tt
  /\ fst (loginToLinkedIn site_driver 0
            (like_host some_credentials 1 false) (fresh signed_out)) = Ok tt
  /\ fst (loginToLinkedIn profile_driver 1
            (like_host some_credentials 1 false) (fresh tt))
     = Throw ("LinkedIn login failed: Login might have failed. Current URL: "
              ++ "https://www.linkedin.com/in/someone/").
Proof. repeat split; reflexivity. Qed.

(** ** The node file: second factor, post operations, items *)

Section NodeFile.

Context {St : Type} (drv : Driver St).

(** X23.  [handle2FA] never rejects, whatever the page does: a code field
    that never shows, a typing or a click that fails, all end in a normal
    return, after at most one typing and one click. *)
Theorem handle2FA_never_rejects (twoFactorCode : option string) :
  resolves (handle2FA drv twoFactorCode)
  /\ within is_typing 1 (handle2FA drv twoFactorCode)
  /\ within is_click 1 (handle2FA drv twoFactorCode).
Proof.
  unfold handle2FA, click_and_wait. repeat split.
  - eapply (resolves_try_catch is_click); [budget | intros; apply resolves_ret].
  - budget_upto.
  - budget_upto.
Qed.

(** X24.  The node's own post handler loads the address at most once, with
    no retry and no screen shot, and sends at most three clicks and one
    typing, whatever the operation and whatever the page does. *)
Theorem handlePostOperations_budget (ctx : Ctx) (operation : string) (itemIndex : nat) :
  within is_goto 1 (handlePostOperations drv ctx operation itemIndex)
  /\ within is_click 3 (handlePostOperations drv ctx operation itemIndex)
  /\ within is_typing 1 (handlePostOperations drv ctx operation itemIndex)
  /\ within is_screenshot 0 (handlePostOperations drv ctx operation itemIndex).
Proof.
  unfold handlePostOperations. repeat split; budget_upto.
Qed.

(** X25.  The node's post handler loads the address before it looks at the
    operation: for an operation that is neither [like] nor [comment] the
    page receives exactly the one load, and the call then rejects, naming
    [share] as not implemented and anything else as not supported. *)
Theorem handlePostOperations_loads_before_rejecting
    (ctx : Ctx) (operation : string) (itemIndex : nat) (address : string) (w : PWorld St) :
  getNodeParameter ctx "url" itemIndex = Done address ->
  (operation =? "like") = false ->
  (operation =? "comment") = false ->
  exists (ok : bool) e w',
    handlePostOperations drv ctx operation itemIndex w = (Throw e, w')
    /\ plog w' = (Goto address networkidle2 None, ok) :: plog w
    /\ (ok = true ->
        e = "Post operation '" ++ operation ++ "' failed: "
            ++ (if operation =? "share" then "Share operation not implemented yet"
                else "Operation " ++ operation ++ " is not supported for post resource")).
Proof.
  intros Hurl Hlike Hcomment.
  unfold handlePostOperations, try_catch, bind, host. rewrite Hurl.
  destruct (call_cases drv (Goto address networkidle2 None) w)
    as [[v [-> _]] | [m [-> _]]].
  - rewrite Hlike, Hcomment. exists true.
    destruct (operation =? "share"); eexists _, _;
      (split; [reflexivity|]); (split; [reflexivity|]); reflexivity.
  - exists false. eexists _, _.
    split; [reflexivity|]. split; [reflexivity|]. discriminate.
Qed.

End NodeFile.

Lemma handlePostOperations_loads_before_rejecting_witness :
  exists (ok : bool) e w',
    handlePostOperations site_driver (post_host some_credentials "share" 1 false) "share" 0
      (fresh (a_post false true)) = (Throw e, w')
    /\ plog w' = (Goto post_url networkidle2 None, ok) :: plog (fresh (a_post false true))
    /\ (ok = true ->
        e = "Post operation '" ++ "share" ++ "' failed: "
            ++ (if "share" =? "share" then "Share operation not implemented yet"
                else "Operation " ++ "share" ++ " is not supported for post resource")).
Proof.
  apply (handlePostOperations_loads_before_rejecting site_driver
           (post_host some_credentials "share" 1 false) "share" 0 post_url
           (fresh (a_post false true)));
    reflexivity.
Defined.

Section Items.

Context {St : Type} (drv : Driver St).
Variable handleProfileOperations : Ctx -> string -> nat -> M (PWorld St) Val.
Variable handleFeedOperations : Ctx -> string -> nat -> M (PWorld St) Val.

Lemma bind_Ok_inv_gen {W A B} (m : M W A) (k : A -> M W B) w b w' :
  bind m k w = (Ok b, w') ->
  exists a w1, m w = (Ok a, w1) /\ k a w1 = (Ok b, w').
Proof.
  unfold bind. destruct (m w) as [[a | e |] w1]; try discriminate.
  intros H. now exists a, w1.
Qed.

(** Without a page, an item with readable parameters sends nothing. *)
Lemma execute_item_without_page (ctx : Ctx) (i : nat) (returnData : list Item)
    (bw : BWorld St) :
  (forall name, exists v, getNodeParameter ctx name i = Done v) ->
  execute_item drv handleProfileOperations handleFeedOperations ctx false i returnData bw
  = (if authentication ctx =? "apiKey" then
       if continueOnFail ctx then Ok (returnData ++ [api_failure i])%list
       else Throw api_not_implemented
     else Ok returnData, bw).
Proof.
  intros Hp. unfold execute_item, try_catch, bind, host.
  destruct (Hp "resource") as [resource ->]. destruct (Hp "operation") as [operation ->].
  rewrite Bool.andb_false_r.
  destruct (authentication ctx =? "apiKey"); [|reflexivity].
  unfold throw. destruct (continueOnFail ctx); reflexivity.
Qed.

Lemma execute_items_without_page (ctx : Ctx) (n : nat) :
  (forall name i, exists v, getNodeParameter ctx name i = Done v) ->
  forall i returnData bw,
    execute_items drv handleProfileOperations handleFeedOperations ctx false n i returnData bw
    = (if authentication ctx =? "apiKey" then
         if continueOnFail ctx then Ok (returnData ++ map api_failure (seq i n))%list
         else match n with O => Ok returnData | S _ => Throw api_not_implemented end
       else Ok returnData, bw).
Proof.
  intros Hp. induction n as [| n IH]; intros i returnData bw; simpl.
  - unfold ret. rewrite app_nil_r.
    destruct (authentication ctx =? "apiKey"), (continueOnFail ctx); reflexivity.
  - unfold bind. rewrite execute_item_without_page by (intros name; apply Hp).
    destruct (authentication ctx =? "apiKey").
    + destruct (continueOnFail ctx); [|reflexivity].
      rewrite IH. rewrite <- app_assoc. reflexivity.
    + rewrite IH. reflexivity.
Qed.

(** X26.  Outside the browser mode [execute] starts no browser and sends
    the page nothing.  In the API key mode every item fails as not
    implemented: the failures are recorded one per item under
    continue-on-failure, and the first one aborts the batch otherwise.
    Under any other authentication value the items are dropped and the
    output is empty. *)
Theorem execute_without_browser_mode (fuel : nat) (ctx : Ctx) (bw : BWorld St) :
  (authentication ctx =? "browser") = false ->
  (forall name i, exists v, getNodeParameter ctx name i = Done v) ->
  execute drv handleProfileOperations handleFeedOperations fuel ctx bw
  = (if authentication ctx =? "apiKey" then
       if continueOnFail ctx then Ok [map api_failure (seq 0 (getInputData ctx))]
       else match getInputData ctx with
            | O => Ok [[]]
            | S _ => Throw api_not_implemented
            end
     else Ok [[]], bw).
Proof.
  intros Hmode Hp. unfold execute. rewrite Hmode. unfold bind.
  rewrite execute_items_without_page by exact Hp.
  destruct (authentication ctx =? "apiKey"); [|reflexivity].
  destruct (continueOnFail ctx); [reflexivity|].
  destruct (getInputData ctx); reflexivity.
Qed.

Lemma execute_item_paired (ctx : Ctx) (i : nat) (returnData returnData' : list Item)
    (bw bw' : BWorld St) :
  (authentication ctx =? "browser") = true ->
  execute_item drv handleProfileOperations handleFeedOperations ctx true i returnData bw
  = (Ok returnData', bw') ->
  exists j, returnData' = (returnData ++ [ {| json := j; pairedItem := i |} ])%list.
Proof.
  intros Hmode. unfold execute_item, try_catch. rewrite Hmode. cbn [andb].
  match goal with
  | |- match ?body bw with _ => _ end = _ -> _ =>
      destruct (body bw) as [[r | e |] bw1] eqn:E; try discriminate
  end.
  - intros H. inversion H; subst. clear H.
    apply bind_Ok_inv_gen in E. destruct E as (resource & bw2 & _ & E).
    apply bind_Ok_inv_gen in E. destruct E as (operation & bw3 & _ & E).
    apply bind_Ok_inv_gen in E. destruct E as (result & bw4 & _ & E).
    unfold ret in E. inversion E; subst. now exists result.
  - destruct (continueOnFail ctx); [|discriminate].
    intros H. unfold ret in H. inversion H; subst. now exists (JError e).
Qed.

Lemma execute_items_paired (ctx : Ctx) (n : nat) :
  (authentication ctx =? "browser") = true ->
  forall i returnData returnData' bw bw',
    execute_items drv handleProfileOperations handleFeedOperations ctx true n i returnData bw
    = (Ok returnData', bw') ->
    map pairedItem returnData' = (map pairedItem returnData ++ seq i n)%list.
Proof.
  intros Hmode. induction n as [| n IH]; intros i returnData returnData' bw bw' E; simpl in E.
  - unfold ret in E. inversion E; subst. now rewrite app_nil_r.
  - apply bind_Ok_inv_gen in E. destruct E as (rd1 & bw1 & E1 & E2).
    apply (execute_item_paired ctx i returnData rd1 bw bw1 Hmode) in E1.
    destruct E1 as [j ->].
    rewrite (IH _ _ _ _ _ E2), map_app, <- app_assoc. reflexivity.
Qed.

(** X27.  In the browser mode a batch that returns holds exactly one output
    item for each input item, in input order, each paired with the index of
    its input: results and recorded failures alike, whatever the profile and
    feed handlers do. *)
Theorem execute_pairs_every_item
    (fuel : nat) (ctx : Ctx) (bw bw' : BWorld St) (out : list (list Item)) :
  (authentication ctx =? "browser") = true ->
  execute drv handleProfileOperations handleFeedOperations fuel ctx bw = (Ok out, bw') ->
  exists items,
    out = [items] /\ map pairedItem items = seq 0 (getInputData ctx).
Proof.
  intros Hmode E. unfold execute in E. rewrite Hmode in E.
  apply bind_Ok_inv_gen in E. destruct E as (credentials & bw1 & _ & E).
  destruct credentials as [credentials |]; [|discriminate].
  apply bind_Ok_inv_gen in E. destruct E as (browser & bw2 & _ & E).
  unfold try_catch in E.
  match type of E with
  | match ?body bw2 with _ => _ end = _ =>
      destruct (body bw2) as [[r | e |] bw3] eqn:Ebody; try discriminate
  end.
  - inversion E; subst. clear E.
    apply bind_Ok_inv_gen in Ebody. destruct Ebody as (x1 & b1 & _ & E).
    apply bind_Ok_inv_gen in E. destruct E as (x2 & b2 & _ & E).
    apply bind_Ok_inv_gen in E. destruct E as (x3 & b3 & _ & E).
    apply bind_Ok_inv_gen in E. destruct E as (x4 & b4 & _ & E).
    apply bind_Ok_inv_gen in E. destruct E as (returnData & b5 & Hitems & E).
    apply bind_Ok_inv_gen in E. destruct E as (x6 & b6 & _ & E).
    unfold ret in E. inversion E; subst.
    exists returnData. split; [reflexivity|].
    exact (execute_items_paired ctx _ Hmode 0 [] returnData b4 b5 Hitems).
  - apply bind_Ok_inv_gen in E. destruct E as (x & b & _ & E). discriminate.
Qed.

End Items.

Lemma execute_without_browser_mode_witness :
  execute site_driver no_handler no_handler 0 (api_host 2 true) (visit signed_out)
  = (if authentication (api_host 2 true) =? "apiKey" then
       if continueOnFail (api_host 2 true)
       then Ok [map api_failure (seq 0 (getInputData (api_host 2 true)))]
       else match getInputData (api_host 2 true) with
            | O => Ok [[]]
            | S _ => Throw api_not_implemented
            end
     else Ok [[]], visit signed_out).
Proof.
  apply (execute_without_browser_mode site_driver no_handler no_handler 0
           (api_host 2 true) (visit signed_out)).
  - reflexivity.
  - intros name i. simpl. destruct (name =? "resource"); eexists; reflexivity.
Defined.

Lemma execute_pairs_every_item_witness :
  exists items,
    [[ {| json := JError "Post operation 'share' failed: Share operation not implemented yet";
          pairedItem := 0 |};
       {| json := JError "Post operation 'share' failed: Share operation not implemented yet";
          pairedItem := 1 |} ]] = [items]
    /\ map pairedItem items = seq 0 (getInputData (post_host some_credentials "share" 2 true)).
Proof.
  apply (execute_pairs_every_item site_driver no_handler no_handler 1
           (post_host some_credentials "share" 2 true) (visit signed_out)
           (snd (execute site_driver no_handler no_handler 1
                   (post_host some_credentials "share" 2 true) (visit signed_out))));
    reflexivity.
Defined.

(** ** The node file: loading the feed *)

Section ScrollFeed.

Context {St : Type} (fd : Feed.FeedDriver St).

Lemma rounds_app (l1 l2 : list Feed.FeedCmd) :
  Feed.rounds (l1 ++ l2) = (Feed.rounds l1 + Feed.rounds l2)%nat.
Proof. unfold Feed.rounds. now rewrite filter_app, length_app. Qed.

Lemma scroll_loop_rounds (desired : Z) :
  forall fuel current attempts w,
    (0 <= attempts < Feed.maxScrollAttempts)%Z ->
    (Z.to_nat (Feed.maxScrollAttempts - attempts) <= fuel)%nat ->
    exists l,
      Feed.flog (snd (Feed.scroll_loop fd fuel desired current attempts w))
      = (l ++ Feed.flog w)%list
      /\ (1 <= Feed.rounds l <= Z.to_nat (Feed.maxScrollAttempts - attempts))%nat
      /\ fst (Feed.scroll_loop fd fuel desired current attempts w) <> Diverge.
Proof.
  unfold Feed.maxScrollAttempts.
  induction fuel as [| fuel IH]; intros current attempts w Ha Hfuel; [lia|].
  cbn [Feed.scroll_loop].
  unfold bind, Feed.scroll, Feed.wait_for_posts, Feed.count, Feed.maxScrollAttempts.
  destruct (Feed.scrollBy fd (Feed.feed w)) as [[u | m] s1]; cbn [fst snd Feed.feed Feed.flog].
  2:{ exists [Feed.ScrollBy]. split; [reflexivity|]; split; [|discriminate];
      replace (Feed.rounds _) with 1%nat by reflexivity; lia. }
  destruct (Feed.countPosts fd (Feed.settle fd s1)) as [[c | m] s2];
    cbn [fst snd Feed.feed Feed.flog].
  2:{ exists [Feed.CountPosts; Feed.Settle; Feed.ScrollBy].
      split; [reflexivity|]; split; [|discriminate];
      replace (Feed.rounds _) with 1%nat by reflexivity; lia. }
  destruct ((c >=? desired)%Z || (attempts + 1 >=? 10)%Z || (current =? c)%Z) eqn:Hstop.
  - exists [Feed.CountPosts; Feed.Settle; Feed.ScrollBy].
    split; [reflexivity|]; split; [|discriminate];
      replace (Feed.rounds _) with 1%nat by reflexivity; lia.
  - apply Bool.orb_false_elim in Hstop. destruct Hstop as [Hstop _].
    apply Bool.orb_false_elim in Hstop. destruct Hstop as [_ Hlast].
    rewrite Z.geb_leb in Hlast. apply Z.leb_gt in Hlast.
    destruct (IH c (attempts + 1)%Z
                {| Feed.feed := s2;
                   Feed.flog := Feed.CountPosts :: Feed.Settle :: Feed.ScrollBy :: Feed.flog w |})
      as (l & L & R & D); [lia | lia |].
    exists (l ++ [Feed.CountPosts; Feed.Settle; Feed.ScrollBy])%list.
    repeat split.
    + rewrite L. cbn [Feed.flog]. rewrite <- app_assoc. reflexivity.
    + rewrite rounds_app.
      replace (Feed.rounds [Feed.CountPosts; Feed.Settle; Feed.ScrollBy]) with 1%nat
        by reflexivity.
      lia.
    + rewrite rounds_app.
      replace (Feed.rounds [Feed.CountPosts; Feed.Settle; Feed.ScrollBy]) with 1%nat
        by reflexivity.
      lia.
    + exact D.
Qed.

(** X28.  [scrollToLoadPosts] always ends, after at least one and at most
    ten rounds of scrolling, whatever the feed does and whatever count is
    asked for: ten nested rounds are all the loop ever needs, and even a
    count of zero costs one scroll. *)
Theorem scrollToLoadPosts_at_most_ten_rounds
    (desiredPostCount : Z) (spare : nat) (w : Feed.FWorld St) :
  exists l,
    Feed.flog (snd (Feed.scrollToLoadPosts fd (10 + spare) desiredPostCount w))
    = (l ++ Feed.flog w)%list
    /\ (1 <= Feed.rounds l <= 10)%nat
    /\ fst (Feed.scrollToLoadPosts fd (10 + spare) desiredPostCount w) <> Diverge.
Proof.
  unfold Feed.scrollToLoadPosts.
  destruct (scroll_loop_rounds desiredPostCount (10 + spare) 0 0 w) as (l & L & R & D).
  - unfold Feed.maxScrollAttempts. lia.
  - unfold Feed.maxScrollAttempts. simpl. lia.
  - exists l. repeat split; auto; unfold Feed.maxScrollAttempts in R; simpl in R; lia.
Qed.

(** X29.  On a feed whose post count no longer changes, [scrollToLoadPosts]
    gives up after at most two rounds, however many posts were asked for:
    the second round sees the count of the first and stops. *)
Theorem scrollToLoadPosts_stops_on_stalled_feed
    (shown desiredPostCount : Z) (spare : nat) (w : Feed.FWorld St) :
  (forall s, fst (Feed.countPosts fd s) = Done shown) ->
  exists l,
    Feed.flog (snd (Feed.scrollToLoadPosts fd (2 + spare) desiredPostCount w))
    = (l ++ Feed.flog w)%list
    /\ (Feed.rounds l <= 2)%nat
    /\ fst (Feed.scrollToLoadPosts fd (2 + spare) desiredPostCount w) <> Diverge.
Proof.
  intros Hcount.
  assert (H : exists l r s,
             Feed.scrollToLoadPosts fd (2 + spare) desiredPostCount w
             = (r, {| Feed.feed := s; Feed.flog := (l ++ Feed.flog w)%list |})
             /\ (Feed.rounds l <= 2)%nat /\ r <> Diverge).
  { unfold Feed.scrollToLoadPosts.
    change (2 + spare)%nat with (S (S spare)). cbn [Feed.scroll_loop].
    unfold bind, Feed.scroll, Feed.wait_for_posts, Feed.count.
    destruct (Feed.scrollBy fd (Feed.feed w)) as [[u | m] s1]; cbn [Feed.feed Feed.flog].
    2:{ exists [Feed.ScrollBy]. eexists _, _.
        split; [reflexivity|]. split; [cbn; lia | discriminate]. }
    pose proof (Hcount (Feed.settle fd s1)) as H1.
    destruct (Feed.countPosts fd (Feed.settle fd s1)) as [r1 s2]. simpl in H1. subst r1.
    destruct ((shown >=? desiredPostCount)%Z || (0 + 1 >=? Feed.maxScrollAttempts)%Z
              || (0 =? shown)%Z).
    { exists [Feed.CountPosts; Feed.Settle; Feed.ScrollBy]. eexists _, _.
      split; [reflexivity|]. split; [cbn; lia | discriminate]. }
    cbn [Feed.feed Feed.flog].
    destruct (Feed.scrollBy fd s2) as [[u2 | m] s3]; cbn [Feed.feed Feed.flog].
    2:{ exists [Feed.ScrollBy; Feed.CountPosts; Feed.Settle; Feed.ScrollBy]. eexists _, _.
        split; [reflexivity|]. split; [cbn; lia | discriminate]. }
    pose proof (Hcount (Feed.settle fd s3)) as H2.
    destruct (Feed.countPosts fd (Feed.settle fd s3)) as [r2 s4]. simpl in H2. subst r2.
    rewrite Z.eqb_refl, Bool.orb_true_r.
    exists [Feed.CountPosts; Feed.Settle; Feed.ScrollBy;
            Feed.CountPosts; Feed.Settle; Feed.ScrollBy]. eexists _, _.
    split; [reflexivity|]. split; [cbn; lia | discriminate]. }
  destruct H as (l & r & s & E & R & D). rewrite E. exists l. auto.
Qed.

End ScrollFeed.

Lemma scrollToLoadPosts_stops_on_stalled_feed_witness :
  exists l,
    Feed.flog (snd (Feed.scrollToLoadPosts (frozen_feed 4) (2 + 8) 20
                      {| Feed.feed := tt; Feed.flog := [] |}))
    = (l ++ Feed.flog {| Feed.feed := tt; Feed.flog := [] |})%list
    /\ (Feed.rounds l <= 2)%nat
    /\ fst (Feed.scrollToLoadPosts (frozen_feed 4) (2 + 8) 20
              {| Feed.feed := tt; Feed.flog := [] |}) <> Diverge.
Proof.
  apply (scrollToLoadPosts_stops_on_stalled_feed (frozen_feed 4) 4 20 8
           {| Feed.feed := tt; Feed.flog := [] |}).
  intros s. reflexivity.
Defined.

Example scrollToLoadPosts_growing_feed :
  Feed.rounds (Feed.flog (snd (Feed.scrollToLoadPosts Feed.growing_feed 10 100
                                 {| Feed.feed := 0%Z; Feed.flog := [] |}))) = 10%nat
  /\ Feed.rounds (Feed.flog (snd (Feed.scrollToLoadPosts Feed.growing_feed 10 7
                                    {| Feed.feed := 0%Z; Feed.flog := [] |}))) = 3%nat
  /\ Feed.rounds (Feed.flog (snd (Feed.scrollToLoadPosts Feed.static_feed 10 7
                                    {| Feed.feed := 0%Z; Feed.flog := [] |}))) = 1%nat.
Proof. repeat split; reflexivity. Qed.

(** ** utils/logger.ts *)

Section LoggerFacts.

Import Logger.

(** X30.  The logger's threshold: a message of level [l] reaches the
    console, as one line that carries the message, exactly when [l] is at
    most the level last set, and the level itself is never changed by
    logging.  No level silences errors. *)
Theorem logger_threshold (l level : LogLevel) (message : string) (s : State) :
  currentLogLevel (write l message (setLogLevel level s)) = level
  /\ ((value l <= value level)%nat ->
      exists ln,
        console (write l message (setLogLevel level s)) = ln :: console s
        /\ contains (line ln) message)
  /\ ((value level < value l)%nat ->
      console (write l message (setLogLevel level s)) = console s)
  /\ console (write ERROR message (setLogLevel level s)) <> console s.
Proof.
  assert (Hc : forall tag, contains (formatLogMessage message tag) message).
  { intros tag. exists ("LinkedIn Node [" ++ tag ++ "]: "), EmptyString.
    unfold formatLogMessage.
    assert (Hnil : forall t : string, t ++ EmptyString = t)
      by (induction t as [| c t IHt]; simpl; [reflexivity | now rewrite IHt]).
    rewrite Hnil.
    assert (Hassoc : forall a b c : string, (a ++ b) ++ c = a ++ b ++ c)
      by (induction a as [| x a IHa]; intros; simpl; [reflexivity | now rewrite IHa]).
    now rewrite !Hassoc. }
  repeat split.
  - destruct l, level; reflexivity.
  - intros Hle. destruct l, level; simpl in Hle; try lia;
      (eexists; split; [reflexivity | apply Hc]).
  - intros Hlt. destruct l, level; simpl in Hlt; try lia; reflexivity.
  - destruct level; simpl; intros H;
      apply (f_equal (@List.length Line)) in H; simpl in H; lia.
Qed.

End LoggerFacts.

(** ** White space, as [trim] has it *)

(** Blank: spaces and a tab; the no-break space U+00A0; the byte order mark
    U+FEFF; the line separator U+2028 after the ideographic space U+3000.
    Not blank: a letter with an accent; U+200B, the zero width space, which
    [trim] leaves in place; a word between no-break spaces. *)
Example has_non_space_examples :
  has_non_space (utf8 [32; 9; 32]) = false
  /\ has_non_space (utf8 [194; 160]) = false
  /\ has_non_space (utf8 [239; 187; 191]) = false
  /\ has_non_space (utf8 [227; 128; 128; 226; 128; 168]) = false
  /\ has_non_space (utf8 [195; 169]) = true
  /\ has_non_space (utf8 [226; 128; 139]) = true
  /\ has_non_space (utf8 [194; 160; 104; 105; 194; 160]) = true.
Proof. repeat split; reflexivity. Qed.

(** A share text of no-break spaces only is not typed. *)
Example sharePost_no_break_space :
  count_page is_typing
    (plog (snd (sharePost site_driver post_url (utf8 [194; 160; 194; 160])
                  (fresh (a_post false true))))) = 0%nat
  /\ fst (sharePost site_driver post_url (utf8 [194; 160; 194; 160])
            (fresh (a_post false true))) = Ok true
  /\ count_page is_typing
       (plog (snd (sharePost site_driver post_url "Worth a read"
                     (fresh (a_post false true))))) = 1%nat.
Proof. repeat split; reflexivity. Qed.
